(** * Cypher language support: the completion resolution engine

    A shallow embedding of the completion code of the language server
    ([completionCoreCompletion], [autoCompleteStructurally],
    [autoCompleteStructurallyAddingChar] and the small classifiers around
    them), with the properties of the specification proved about it.

    Numbers are [Z], arrays are lists, a JavaScript [Map] is an
    insertion-ordered association list, a value that may be [undefined] is an
    [option].  Strings are sequences of characters: the code concatenates
    them, compares them and tests prefixes, nothing that depends on how a
    character is encoded.  The schema snapshot [dbInfo] is an object the
    functions hold a reference to: it is threaded through every operation as
    explicit state, and a method call on an [undefined] receiver throws a
    [TypeError]. *)

From Stdlib Require Import ZArith List Ascii String Bool Lia.
From Stdlib Require Import Sorted Permutation.
Import ListNotations.

Local Open Scope string_scope.
Local Open Scope Z_scope.
Local Open Scope list_scope.

(** ** The JavaScript operations the code relies on *)

Module Js.

Inductive Error : Type :=
| TypeError.

Inductive Outcome (A : Type) : Type :=
| Returns (a : A)
| Throws (e : Error).

Arguments Returns {A} a.
Arguments Throws {A} e.

(** [a.length] *)
Definition length {A : Type} (a : list A) : Z :=
  Z.of_nat (List.length a).

(** [a[i]]: [undefined] outside the array, also for a negative index. *)
Definition index {A : Type} (a : list A) (i : Z) : option A :=
  if i <? 0 then None else nth_error a (Z.to_nat i).

(** [a.includes(x)] on numbers. *)
Definition includes (a : list Z) (x : Z) : bool :=
  existsb (fun y => y =? x) a.

(** [a.some(p)] *)
Definition some {A : Type} (a : list A) (p : A -> bool) : bool :=
  existsb p a.

(** [a.join(sep)]: an [undefined] element is rendered as the empty string. *)
Definition join (sep : string) (a : list (option string)) : string :=
  String.concat sep
    (map (fun e => match e with Some s => s | None => "" end) a).

(** [s.startsWith(searchString)] *)
Definition startsWith (s searchString : string) : bool :=
  String.prefix searchString s.

(** [a.concat(b)]: an array argument is spread, any other value (here
    [undefined]) is appended as one element. *)
Definition concat {A : Type} (a : list A) (b : option (list A))
  : list (option A) :=
  match b with
  | Some b' => map Some (a ++ b')
  | None => map Some a ++ [None]
  end.

(** What [flatMap] does with one callback result: an array is spliced in,
    any other value (here [null]) becomes one element. *)
Definition flatten {A : Type} (r : option (list A)) : list (option A) :=
  match r with
  | Some items => map Some items
  | None => [None]
  end.

(** [a.filter((r) => r !== null)] *)
Fixpoint filterNotNull {A : Type} (a : list (option A)) : list A :=
  match a with
  | [] => []
  | Some x :: rest => x :: filterNotNull rest
  | None :: rest => filterNotNull rest
  end.

(** A [Map<string, V>]: its entries in insertion order. *)
Definition Map (V : Type) : Type := list (string * V).

(** [Array.from(m.keys())] *)
Definition keys {V : Type} (m : Map V) : list string := map fst m.

(** [Array.from(m.entries())] of a [Map<number, V>]. *)
Definition entries {V : Type} (m : list (Z * V)) : list (Z * V) := m.

End Js.

(** ** Data model *)

(** [CompletionItemKind] of the language-server protocol, the four kinds the
    completion code produces. *)
Inductive CompletionItemKind : Type :=
| Keyword
| TypeParameter
| Function
| Value.

(** A completion item [{label, kind}].  TypeScript types [label] as a string;
    at run time it is whatever the catalog array held, so it can be
    [undefined] ([None]). *)
Record CompletionItem : Type := {
  label : option string;
  kind : CompletionItemKind
}.

(** [{label: t, kind: k}] for a string [t]. *)
Definition item (k : CompletionItemKind) (t : string) : CompletionItem :=
  {| label := Some t; kind := k |}.

Record SignatureInformation : Type := {
  signatureLabel : string
}.

(** The schema snapshot.  The code reads six fields of it; a field that is
    absent from the object reads as [undefined]. *)
Record DbInfo : Type := {
  procedureSignatures : option (Js.Map SignatureInformation);
  functionSignatures : option (Js.Map SignatureInformation);
  labels : option (list string);
  relationshipTypes : option (list string);
  databaseNames : option (list string);
  aliasNames : option (list string)
}.

(** A lexer token: its [type] and its [text]. *)
Record Token : Type := {
  type : Z;
  text : string
}.

(** A candidate rule of the candidate collector. *)
Record CandidateRule : Type := {
  startTokenIndex : Z;
  ruleList : list Z
}.

(** The follow-up information of a candidate token. *)
Record FollowUpList : Type := {
  indexes : list Z;
  optional : bool
}.

Module CandidatesCollection.

Record t : Type := {
  rules : list (Z * CandidateRule);
  tokens : list (Z * FollowUpList)
}.

End CandidatesCollection.

(** [CypherTokenType] of [lexerSymbols.ts]: only [keyword] is named by the
    completion code. *)
Inductive CypherTokenType : Type :=
| keyword
| otherTokenType (name : string).

Definition isKeywordType (ty : CypherTokenType) : bool :=
  match ty with
  | keyword => true
  | otherTokenType _ => false
  end.

(** The generated context classes the structural classifiers test with
    [instanceof]. *)
Inductive ContextClass : Type :=
| LabelExpression4Context
| LabelExpression4IsContext
| NodePatternContext
| RelationshipPatternContext
| Expression2Context
| ProcedureNameContext.

(** ** What the completion code imports *)

(** The constants of the generated lexer. *)
Module CypherLexer.

Class Constants : Type := {
  SPACE : Z
}.

End CypherLexer.

(** The constants of the generated parser. *)
Module CypherParser.

Class Constants : Type := {
  EOF : Z;
  SPACE : Z;
  RULE_unescapedSymbolicNameString : Z;
  RULE_escapedSymbolicNameString : Z;
  RULE_stringLiteral : Z;
  RULE_symbolicLabelNameString : Z;
  RULE_symbolicAliasName : Z;
  RULE_procedureName : Z;
  RULE_functionName : Z;
  RULE_relationshipPattern : Z;
  RULE_nodePattern : Z;
  RULE_labelExpression : Z;
  RULE_createAlias : Z;
  RULE_createDatabase : Z;
  RULE_createCompositeDatabase : Z;
  RULE_dropAlias : Z;
  RULE_alterAlias : Z;
  RULE_showAliases : Z
}.

End CypherParser.

(** The tables of [lexerSymbols.ts]. *)
Class LexerSymbols : Type := {
  lexerSymbols : list (Z * CypherTokenType);
  tokenNames : Z -> option string
}.

(** The parse tree of the ANTLR run time and the two tree helpers of
    [helpers.ts], [findParent] and [findStopNode]: they are taken as given,
    so that every property below holds for any implementation of them. *)
Class ParseTree : Type := {
  ParserRuleContext : Type;
  instanceOf : ParserRuleContext -> ContextClass -> bool;
  getText : ParserRuleContext -> string;
  findParent :
    option ParserRuleContext -> (ParserRuleContext -> bool) ->
    option ParserRuleContext;
  findStopNode : ParserRuleContext -> ParserRuleContext
}.

(** [CodeCompletionCore] of antlr4-c3: [collectCandidates] as a function of
    the parser, the preferred rules, the ignored tokens and the caret
    index. *)
Class CandidateCollector : Type := {
  Parser : Type;
  collectCandidates :
    Parser -> list Z -> list Z -> Z -> CandidatesCollection.t
}.

(** Modelled from the spec: [isDefined] of [helpers.ts] is not among the
    sources; section 4.5 reads its uses as "exists", the test that a value is
    not [undefined]. *)
Definition isDefined {A : Type} (x : option A) : bool :=
  match x with
  | Some _ => true
  | None => false
  end.

(** ** Effects: reads of the schema snapshot, and exceptions *)

(** A computation runs on the current content of the [dbInfo] object and
    gives an outcome together with the content it leaves behind. *)
Definition M (A : Type) : Type := DbInfo -> Js.Outcome A * DbInfo.

Definition ret {A : Type} (a : A) : M A :=
  fun db => (Js.Returns a, db).

Definition throw {A : Type} (e : Js.Error) : M A :=
  fun db => (Js.Throws e, db).

Definition bind {A B : Type} (c : M A) (k : A -> M B) : M B :=
  fun db =>
    match c db with
    | (Js.Returns a, db') => k a db'
    | (Js.Throws e, db') => (Js.Throws e, db')
    end.

Notation "x <- c ;; k" := (bind c (fun x => k))
  (at level 61, c at next level, right associativity).

(** [dbInfo.f]: a property read. *)
Definition prop {A : Type} (f : DbInfo -> option A) : M (option A) :=
  fun db => (Js.Returns (f db), db).

(** [o.m(...)] or [o.p]: a member access throws on an [undefined]
    receiver. *)
Definition member {A : Type} (o : option A) : M A :=
  match o with
  | Some a => ret a
  | None => throw Js.TypeError
  end.

(** [a.flatMap(f)] with a callback that may throw. *)
Fixpoint flatMap {A B : Type} (f : A -> M (option (list B))) (a : list A)
  : M (list (option B)) :=
  match a with
  | [] => ret []
  | x :: rest =>
      r <- f x ;;
      more <- flatMap f rest ;;
      ret (Js.flatten r ++ more)
  end.

(** ** Parsing results *)

(** What the parser wrapper returns: the parser, the token stream (the
    synthetic end marker last) and the tree.  [EnrichedParsingResult] adds
    fields the completion code does not read. *)
Record ParsingResult `{ParseTree} `{CandidateCollector} : Type := {
  parser : Parser;
  tokens : list Token;
  result : ParserRuleContext
}.

Module parserWrapper.

Class Provider `{ParseTree} `{CandidateCollector} : Type := {
  parse : string -> ParsingResult
}.

End parserWrapper.

(** ** The completion code *)

Section Autocompletion.

Context {lexer : CypherLexer.Constants} {grammar : CypherParser.Constants}.
Context {symbols : LexerSymbols}.
Context {tree : ParseTree} {collector : CandidateCollector}.
Context {wrapper : parserWrapper.Provider}.

Definition isLabel (p : ParserRuleContext) : bool :=
  instanceOf p LabelExpression4Context
  || instanceOf p LabelExpression4IsContext.

Definition inLabel (stopNode : ParserRuleContext) : bool :=
  let labelParent := findParent (Some stopNode) isLabel in
  isDefined labelParent.

Definition inNodeLabel (stopNode : ParserRuleContext) : bool :=
  let labelParent :=
    findParent (findParent (Some stopNode) isLabel)
      (fun p => instanceOf p NodePatternContext) in
  isDefined labelParent.

Definition inRelationshipType (stopNode : ParserRuleContext) : bool :=
  let relTypeParent :=
    findParent (findParent (Some stopNode) isLabel)
      (fun p => instanceOf p RelationshipPatternContext) in
  isDefined relTypeParent.

Definition parentExpression (stopNode : ParserRuleContext)
  : option ParserRuleContext :=
  findParent (Some stopNode) (fun p => instanceOf p Expression2Context).

Definition inProcedureName (stopNode : ParserRuleContext) : bool :=
  let procParent :=
    findParent (Some stopNode) (fun p => instanceOf p ProcedureNameContext) in
  isDefined procParent.

Definition autocompleteLabels : M (list CompletionItem) :=
  ls <- prop labels ;;
  ls <- member ls ;;
  ret (map (fun t => {| label := Some t; kind := TypeParameter |}) ls).

Definition autocompleteRelTypes : M (list CompletionItem) :=
  rs <- prop relationshipTypes ;;
  rs <- member rs ;;
  ret (map (fun t => {| label := Some t; kind := TypeParameter |}) rs).

Definition autoCompleteFunctions (expr : ParserRuleContext)
  : M (list CompletionItem) :=
  fs <- prop functionSignatures ;;
  fs <- member fs ;;
  ret (map (fun t => {| label := Some t; kind := Function |})
         (filter (fun functionName => Js.startsWith functionName (getText expr))
            (Js.keys fs))).

Definition autoCompleteProcNames : M (list CompletionItem) :=
  ps <- prop procedureSignatures ;;
  ps <- member ps ;;
  ret (map (fun t => {| label := Some t; kind := Function |}) (Js.keys ps)).

(** The result is [Some items] for an array and [None] for [undefined]. *)
Definition autoCompleteStructurally (parsingResult : ParsingResult)
  : M (option (list CompletionItem)) :=
  let tokens := tokens parsingResult in
  let tree := result parsingResult in
  let lastTokenIndex := Js.length tokens - 2 in
  let lastToken := Js.index tokens lastTokenIndex in
  let eof := Js.index tokens (lastTokenIndex + 1) in
  if lastTokenIndex <=? 0 then ret None
  else
    eof <- member eof ;;
    if negb (text eof =? "<EOF>")%string then ret (Some [])
    else
      lastToken <- member lastToken ;;
      if type lastToken =? CypherParser.SPACE then ret None
      else
        let stopNode := findStopNode tree in
        if inRelationshipType stopNode then
          items <- autocompleteRelTypes ;;
          ret (Some items)
        else
          let expr := parentExpression stopNode in
          match expr with
          | Some expr =>
              items <- autoCompleteFunctions expr ;;
              ret (Some items)
          | None =>
              if inProcedureName stopNode then
                items <- autoCompleteProcNames ;;
                ret (Some items)
              else ret None
          end.

Definition autoCompleteStructurallyAddingChar (textUntilPosition : string)
  : M (option (list CompletionItem)) :=
  let parsingResult := parserWrapper.parse (textUntilPosition ++ "x")%string in
  let tokens := tokens parsingResult in
  let tree := result parsingResult in
  let lastTokenIndex := Js.length tokens - 2 in
  let lastToken := Js.index tokens lastTokenIndex in
  if lastTokenIndex <=? 0 then ret None
  else
    lastToken <- member lastToken ;;
    if type lastToken =? CypherParser.SPACE then ret None
    else
      let stopNode := findStopNode tree in
      if inRelationshipType stopNode then
        items <- autocompleteRelTypes ;;
        ret (Some items)
      else ret None.

(** The rules whose token alternatives the collector does not expand. *)
Definition preferredRules : list Z :=
  [ CypherParser.RULE_unescapedSymbolicNameString;
    CypherParser.RULE_escapedSymbolicNameString;
    CypherParser.RULE_stringLiteral;
    CypherParser.RULE_symbolicLabelNameString;
    CypherParser.RULE_symbolicAliasName ].

(** Every token that is not a keyword, and the end marker. *)
Definition ignoredTokens : list Z :=
  map (fun '(token, _) => token)
    (filter (fun '(_, type) => negb (isKeywordType type)) lexerSymbols)
  ++ [CypherParser.EOF].

Definition rulesCreatingNewAliasOrDb : list Z :=
  [ CypherParser.RULE_createAlias;
    CypherParser.RULE_createDatabase;
    CypherParser.RULE_createCompositeDatabase ].

Definition rulesThatOnlyAcceptAlias : list Z :=
  [ CypherParser.RULE_dropAlias;
    CypherParser.RULE_alterAlias;
    CypherParser.RULE_showAliases ].

(** The callback of the [flatMap] over the candidate rules: [Some items] for
    an array, [None] for [null].  It closes over the three completion lists
    computed before it. *)
Definition ruleCandidate (parsingResult : ParsingResult)
  (labelCompletions reltypeCompletions proceduresCompletions
     : list CompletionItem)
  (candidate : Z * CandidateRule) : M (option (list CompletionItem)) :=
  let '(ruleNumber, candidateRule) := candidate in
  if (ruleNumber =? CypherParser.RULE_unescapedSymbolicNameString)
     || (ruleNumber =? CypherParser.RULE_symbolicLabelNameString)
  then
    if Js.includes (ruleList candidateRule) CypherParser.RULE_procedureName
    then ret (Some proceduresCompletions)
    else if Js.includes (ruleList candidateRule) CypherParser.RULE_functionName
    then ret (Some proceduresCompletions)
    else if Js.includes (ruleList candidateRule)
              CypherParser.RULE_relationshipPattern
    then ret (Some reltypeCompletions)
    else if Js.includes (ruleList candidateRule) CypherParser.RULE_nodePattern
    then ret (Some labelCompletions)
    else if Js.includes (ruleList candidateRule)
              CypherParser.RULE_labelExpression
    then ret (Some (reltypeCompletions ++ labelCompletions))
    else ret None
  else if ruleNumber =? CypherParser.RULE_symbolicAliasName then
    if match Js.index (tokens parsingResult)
               (startTokenIndex candidateRule + 1) with
       | Some next => type next =? CypherLexer.SPACE
       | None => false
       end
    then ret None
    else if Js.some rulesCreatingNewAliasOrDb
              (fun rule => Js.includes (ruleList candidateRule) rule)
    then ret None
    else if Js.some rulesThatOnlyAcceptAlias
              (fun rule => Js.includes (ruleList candidateRule) rule)
    then
      als <- prop aliasNames ;;
      als <- member als ;;
      ret (Some (map (fun aliasName =>
                        {| label := Some aliasName; kind := Value |}) als))
    else
      dbs <- prop databaseNames ;;
      dbs <- member dbs ;;
      als <- prop aliasNames ;;
      ret (Some (map (fun databaseName =>
                        {| label := databaseName; kind := Value |})
                   (Js.concat dbs als)))
  else ret None.

(** [ruleCompletions]: the [flatMap] over the candidate rules and the filter
    that drops the [null]s. *)
Definition ruleCompletions (parsingResult : ParsingResult)
  (labelCompletions reltypeCompletions proceduresCompletions
     : list CompletionItem)
  (rules : list (Z * CandidateRule)) : M (list CompletionItem) :=
  r <- flatMap
         (ruleCandidate parsingResult labelCompletions reltypeCompletions
            proceduresCompletions)
         (Js.entries rules) ;;
  ret (Js.filterNotNull r).

(** The callback of the [flatMap] over the candidate tokens. *)
Definition tokenCandidate (value : Z * FollowUpList) : list string :=
  let '(tokenNumber, followUpList) := value in
  let firstToken := tokenNames tokenNumber in
  let followUpString :=
    Js.join " " (map (fun i => tokenNames i) (indexes followUpList)) in
  match firstToken with
  | None => []
  | Some firstToken =>
      if (followUpString =? "")%string then [firstToken]
      else
        let followUp := (firstToken ++ " " ++ followUpString)%string in
        if optional followUpList then [firstToken; followUp]
        else [followUp]
  end.

Definition tokenCandidates (tokens : list (Z * FollowUpList)) : list string :=
  flat_map tokenCandidate (Js.entries tokens).

Definition tokenCompletions (tokens : list (Z * FollowUpList))
  : list CompletionItem :=
  map (fun t => {| label := Some t; kind := Keyword |})
    (tokenCandidates tokens).

(** The caret index: one more is subtracted for the final end marker,
    except when the stream holds nothing else. *)
Definition caretIndex (parsingResult : ParsingResult) : Z :=
  if 1 <? Js.length (tokens parsingResult)
  then Js.length (tokens parsingResult) - 2
  else 0.

(** The candidates [collectCandidates] gives at the caret, with the
    collector configured as the completion code does. *)
Definition candidatesAt (parsingResult : ParsingResult)
  : CandidatesCollection.t :=
  collectCandidates (parser parsingResult) preferredRules ignoredTokens
    (caretIndex parsingResult).

Definition completionCoreCompletion (parsingResult : ParsingResult)
  : M (list CompletionItem) :=
  if 0 <=? caretIndex parsingResult then
    let candidates := candidatesAt parsingResult in
    ls <- prop labels ;;
    ls <- member ls ;;
    let labelCompletions :=
      map (fun labelName => {| label := Some labelName; kind := TypeParameter |})
        ls in
    rs <- prop relationshipTypes ;;
    rs <- member rs ;;
    let reltypeCompletions :=
      map (fun relType => {| label := Some relType; kind := TypeParameter |})
        rs in
    ps <- prop procedureSignatures ;;
    ps <- member ps ;;
    let proceduresCompletions :=
      map (fun procedureName =>
             {| label := Some procedureName; kind := Function |})
        (Js.keys ps) in
    fs <- prop functionSignatures ;;
    fs <- member fs ;;
    let functionCompletions :=
      map (fun functionName =>
             {| label := Some functionName; kind := Function |})
        (Js.keys fs) in
    ruleCompletions <-
      ruleCompletions parsingResult labelCompletions reltypeCompletions
        proceduresCompletions (CandidatesCollection.rules candidates) ;;
    ret (ruleCompletions
           ++ tokenCompletions (CandidatesCollection.tokens candidates))
  else ret [].

End Autocompletion.

(** The segment of [ruleCompletions] that one candidate rule accounts for:
    the items of the array its callback returns, nothing for [null]. *)
Definition contribution `{CypherLexer.Constants} `{CypherParser.Constants}
  `{ParseTree} `{CandidateCollector}
  (parsingResult : ParsingResult)
  (labelCompletions reltypeCompletions proceduresCompletions
     : list CompletionItem)
  (db : DbInfo) (candidate : Z * CandidateRule) : list CompletionItem :=
  match fst (ruleCandidate parsingResult labelCompletions reltypeCompletions
               proceduresCompletions candidate db) with
  | Js.Returns (Some items) => items
  | _ => []
  end.

(** A computation that leaves the schema snapshot as it found it. *)
Definition readOnly {A : Type} (c : M A) : Prop :=
  forall db, snd (c db) = db.

(** Every catalog field of the snapshot is present. *)
Definition allPresent (db : DbInfo) : bool :=
  isDefined (labels db) && isDefined (relationshipTypes db)
  && isDefined (procedureSignatures db) && isDefined (functionSignatures db)
  && isDefined (databaseNames db) && isDefined (aliasNames db).

(** The snapshot with another function catalog. *)
Definition withFunctionSignatures (db : DbInfo)
  (fs : Js.Map SignatureInformation) : DbInfo :=
  {| procedureSignatures := procedureSignatures db;
     functionSignatures := Some fs;
     labels := labels db;
     relationshipTypes := relationshipTypes db;
     databaseNames := databaseNames db;
     aliasNames := aliasNames db |}.

(** The rendering of a follow-up sequence: the display names joined by
    single spaces, a token without a display name rendered as nothing. *)
Definition followUpString `{LexerSymbols} (followUpList : FollowUpList)
  : string :=
  Js.join " " (map (fun i => tokenNames i) (indexes followUpList)).

Definition isKeywordItem (i : CompletionItem) : bool :=
  match kind i with
  | Keyword => true
  | _ => false
  end.

Definition isTypeParameterItem (i : CompletionItem) : bool :=
  match kind i with
  | TypeParameter => true
  | _ => false
  end.

(** ** A small concrete setting for the examples *)

Module Demo.

Definition lexer : CypherLexer.Constants :=
  {| CypherLexer.SPACE := 1 |}.

Definition grammar : CypherParser.Constants :=
  {| CypherParser.EOF := -1;
     CypherParser.SPACE := 1;
     CypherParser.RULE_unescapedSymbolicNameString := 10;
     CypherParser.RULE_escapedSymbolicNameString := 11;
     CypherParser.RULE_stringLiteral := 12;
     CypherParser.RULE_symbolicLabelNameString := 13;
     CypherParser.RULE_symbolicAliasName := 14;
     CypherParser.RULE_procedureName := 15;
     CypherParser.RULE_functionName := 16;
     CypherParser.RULE_relationshipPattern := 17;
     CypherParser.RULE_nodePattern := 18;
     CypherParser.RULE_labelExpression := 19;
     CypherParser.RULE_createAlias := 20;
     CypherParser.RULE_createDatabase := 21;
     CypherParser.RULE_createCompositeDatabase := 22;
     CypherParser.RULE_dropAlias := 23;
     CypherParser.RULE_alterAlias := 24;
     CypherParser.RULE_showAliases := 25 |}.

(** Token types: 1 whitespace, 2 identifier, 3 punctuation, 4 [MATCH],
    5 [OPTIONAL], 6 [RETURN]; 7 is a keyword without a display name. *)
Definition symbols : LexerSymbols :=
  {| lexerSymbols :=
       [ (1, otherTokenType "whitespace"); (2, otherTokenType "identifier");
         (3, otherTokenType "punctuation"); (4, keyword); (5, keyword);
         (6, keyword); (7, keyword) ];
     tokenNames := fun i =>
       if i =? 4 then Some "MATCH"
       else if i =? 5 then Some "OPTIONAL"
       else if i =? 6 then Some "RETURN"
       else None |}.

(** A node of the demo tree: its class, if it is one the classifiers test
    for, and its text.  A context is the path from a node up to the root. *)
Record Node : Type := {
  class : option ContextClass;
  nodeText : string
}.

Definition ContextClass_eqb (a b : ContextClass) : bool :=
  match a, b with
  | LabelExpression4Context, LabelExpression4Context
  | LabelExpression4IsContext, LabelExpression4IsContext
  | NodePatternContext, NodePatternContext
  | RelationshipPatternContext, RelationshipPatternContext
  | Expression2Context, Expression2Context
  | ProcedureNameContext, ProcedureNameContext => true
  | _, _ => false
  end.

Definition nodeInstanceOf (p : list Node) (c : ContextClass) : bool :=
  match p with
  | n :: _ =>
      match class n with
      | Some c' => ContextClass_eqb c' c
      | None => false
      end
  | [] => false
  end.

Fixpoint firstFrom (condition : list Node -> bool) (p : list Node)
  : option (list Node) :=
  match p with
  | [] => None
  | n :: up => if condition p then Some p else firstFrom condition up
  end.

(** Modelled from the spec: [findParent] of [helpers.ts] is not among the
    sources; section 4.1 has it walk the parent chain from the node's parent
    and return the first ancestor that satisfies the predicate. *)
Definition nodeFindParent (leaf : option (list Node))
  (condition : list Node -> bool) : option (list Node) :=
  match leaf with
  | Some (_ :: up) => firstFrom condition up
  | _ => None
  end.

(** The demo tree is the branch that ends at the stop node. *)
Definition tree : ParseTree :=
  {| ParserRuleContext := list Node;
     instanceOf := nodeInstanceOf;
     getText := fun p =>
       match p with
       | n :: _ => nodeText n
       | [] => ""
       end;
     findParent := nodeFindParent;
     findStopNode := fun t => t |}.

(** The demo parser state is the candidates the collector reports for it. *)
Definition collector : CandidateCollector :=
  {| Parser := CandidatesCollection.t;
     collectCandidates := fun p _ _ _ => p |}.

Definition ParsingResult : Type :=
  @ParsingResult tree collector.

Definition mkResult (p : CandidatesCollection.t) (ts : list Token)
  (t : list Node) : ParsingResult :=
  @Build_ParsingResult tree collector p ts t.

Definition eofToken : Token := {| type := -1; text := "<EOF>" |}.

Definition isPunctuation (c : Ascii.ascii) : bool :=
  existsb (Ascii.eqb c) ["("; ")"; ":"; "["; "]"; "-"]%char.

Definition flush (word : string) : list Token :=
  match word with
  | EmptyString => []
  | _ => [ {| type := 2; text := word |} ]
  end.

(** A toy lexer: blanks, punctuation marks and words. *)
Fixpoint lex (word : string) (s : string) : list Token :=
  match s with
  | EmptyString => flush word ++ [eofToken]
  | String c rest =>
      if Ascii.eqb c " " then
        flush word ++ {| type := 1; text := " " |} :: lex "" rest
      else if isPunctuation c then
        flush word ++ {| type := 3; text := String c "" |} :: lex "" rest
      else lex (word ++ String c "")%string rest
  end.

(** What the collector reports after [MATCH (n:]: a label name inside a
    node pattern. *)
Definition labelCandidates : CandidatesCollection.t :=
  {| CandidatesCollection.rules :=
       [ (13, {| startTokenIndex := 5; ruleList := [18; 19] |}) ];
     CandidatesCollection.tokens := [] |}.

(** What the collector reports at the start of a statement. *)
Definition statementCandidates : CandidatesCollection.t :=
  {| CandidatesCollection.rules := [];
     CandidatesCollection.tokens :=
       [ (4, {| indexes := []; optional := false |});
         (5, {| indexes := [4]; optional := false |});
         (6, {| indexes := []; optional := false |}) ] |}.

Definition parse (query : string) : ParsingResult :=
  mkResult
    (if String.prefix "MATCH (n:" query then labelCandidates
     else statementCandidates)
    (lex "" query)
    [ {| class := None; nodeText := query |} ].

Definition wrapper : @parserWrapper.Provider tree collector :=
  @parserWrapper.Build_Provider tree collector parse.

Definition schema (ls rs : list string) (ps fs : list string)
  (ds als : list string) : DbInfo :=
  {| procedureSignatures :=
       Some (map (fun n => (n, {| signatureLabel := "" |})) ps);
     functionSignatures :=
       Some (map (fun n => (n, {| signatureLabel := "" |})) fs);
     labels := Some ls;
     relationshipTypes := Some rs;
     databaseNames := Some ds;
     aliasNames := Some als |}.

(** The schema of the label test: three labels, nothing else. *)
Definition petSchema : DbInfo :=
  schema ["Cat"; "Person"; "Dog"] [] [] [] [] [].

(** A schema object whose [labels] field is absent. *)
Definition noLabels : DbInfo :=
  {| procedureSignatures := Some [];
     functionSignatures := Some [];
     labels := None;
     relationshipTypes := Some [];
     databaseNames := Some [];
     aliasNames := Some [] |}.

Definition root (query : string) : Node :=
  {| class := None; nodeText := query |}.

(** [DROP ALIAS a]: an alias name under the drop-alias rule. *)
Definition dropAlias : ParsingResult :=
  mkResult
    {| CandidatesCollection.rules :=
         [ (14, {| startTokenIndex := 4; ruleList := [23] |}) ];
       CandidatesCollection.tokens := [] |}
    (lex "" "DROP ALIAS a")
    [root "DROP ALIAS a"].

(** [ALTER ALIAS a ] with a blank after the name: the collector still
    reports the alias name, from the token of index 4. *)
Definition alterAliasBlank : ParsingResult :=
  mkResult
    {| CandidatesCollection.rules :=
         [ (14, {| startTokenIndex := 4; ruleList := [24] |}) ];
       CandidatesCollection.tokens := [] |}
    (lex "" "ALTER ALIAS a ")
    [root "ALTER ALIAS a "].

(** [USE n]: a database or alias name outside the alias rules. *)
Definition useDatabase : ParsingResult :=
  mkResult
    {| CandidatesCollection.rules :=
         [ (14, {| startTokenIndex := 2; ruleList := [30] |}) ];
       CandidatesCollection.tokens := [] |}
    (lex "" "USE n")
    [root "USE n"].

(** [CALL db]: a name inside a procedure name. *)
Definition callProcedure : ParsingResult :=
  mkResult
    {| CandidatesCollection.rules :=
         [ (10, {| startTokenIndex := 2; ruleList := [31; 15] |}) ];
       CandidatesCollection.tokens := [] |}
    (lex "" "CALL db")
    [ {| class := None; nodeText := "db" |};
      {| class := Some ProcedureNameContext; nodeText := "db" |};
      root "CALL db" ].

(** [MATCH ()-[:KN]: the stop node is a label inside a relationship
    pattern. *)
Definition relationshipType : ParsingResult :=
  mkResult statementCandidates
    (lex "" "MATCH ()-[:KN")
    [ {| class := None; nodeText := "KN" |};
      {| class := Some LabelExpression4Context; nodeText := ":KN" |};
      {| class := Some RelationshipPatternContext; nodeText := "-[:KN" |};
      root "MATCH ()-[:KN" ].

(** [RETURN ab]: the stop node is inside an expression whose text is
    [ab]. *)
Definition returnExpression : ParsingResult :=
  mkResult statementCandidates
    (lex "" "RETURN ab")
    [ {| class := None; nodeText := "ab" |};
      {| class := Some Expression2Context; nodeText := "ab" |};
      root "RETURN ab" ].

(** One token and an end marker whose text is not ["<EOF>"]. *)
Definition brokenAfterOneToken : ParsingResult :=
  mkResult statementCandidates
    [ {| type := 2; text := "RETURN" |}; {| type := -1; text := "'abc" |} ]
    [root "RETURN'abc"].

(** Three tokens and an end marker whose text is not ["<EOF>"]. *)
Definition brokenAfterThreeTokens : ParsingResult :=
  mkResult statementCandidates
    [ {| type := 2; text := "RETURN" |}; {| type := 1; text := " " |};
      {| type := 2; text := "n" |}; {| type := -1; text := "'abc" |} ]
    [root "RETURN n'abc"].

(** [MATCH (n) ]: the last token before the end marker is a blank. *)
Definition endsWithBlank : ParsingResult :=
  mkResult statementCandidates (lex "" "MATCH (n) ") [root "MATCH (n) "].

(** A schema with every catalog filled. *)
Definition fullSchema : DbInfo :=
  schema ["Cat"; "Person"; "Dog"] ["KNOWS"; "LIKES"]
    ["db.info"; "dbms.info"] ["abs"; "acos"; "abc"; "Abs"]
    ["neo4j"; "system"] ["a1"; "a2"].

End Demo.

(** ** The test helper of the completion tests *)

Definition CompletionItemKind_eqb (a b : CompletionItemKind) : bool :=
  match a, b with
  | Keyword, Keyword
  | TypeParameter, TypeParameter
  | Function, Function
  | Value, Value => true
  | _, _ => false
  end.

(** [a == b] on two labels, each a string or [undefined]. *)
Definition label_eqb (a b : option string) : bool :=
  match a, b with
  | Some s, Some t => (s =? t)%string
  | None, None => true
  | _, _ => false
  end.

(** [testCompletion], on the list [autoCompleteQuery] returned (the entry
    point itself is not among the sources): [true] when no expectation
    fails, that is when [find] gives an element for every expected item. *)
Definition testCompletion (actualCompletionList expected : list CompletionItem)
  : bool :=
  forallb
    (fun expectedItem =>
       let elementFound :=
         find (fun value =>
                 CompletionItemKind_eqb (kind value) (kind expectedItem)
                 && label_eqb (label value) (label expectedItem))
           actualCompletionList in
       isDefined elementFound)
    expected.

(** ** Maps with string keys *)

Module JsMap.

(** [m.get(k)] *)
Fixpoint get {V : Type} (m : Js.Map V) (k : string) : option V :=
  match m with
  | [] => None
  | (k', v) :: rest => if (k' =? k)%string then Some v else get rest k
  end.

(** [m.has(k)] *)
Definition has {V : Type} (m : Js.Map V) (k : string) : bool :=
  isDefined (get m k).

(** [m.set(k, v)]: a key that is there keeps its place and takes the new
    value, a new key goes last. *)
Fixpoint set {V : Type} (m : Js.Map V) (k : string) (v : V) : Js.Map V :=
  match m with
  | [] => [(k, v)]
  | (k', v') :: rest =>
      if (k' =? k)%string then (k, v) :: rest else (k', v') :: set rest k v
  end.

End JsMap.

(** ** Semantic highlighting and diagnostics *)

Module Highlighting.

(** The fields of an ANTLR token the listeners read: the line, counted from
    one, and the offsets of the first and the last character. *)
Module antlr4ts.

Record Token : Type := {
  line : Z;
  startIndex : Z;
  stopIndex : Z
}.

End antlr4ts.

Module Position.

Record t : Type := {
  line : Z;
  character : Z
}.

Definition create (line character : Z) : t :=
  {| line := line; character := character |}.

End Position.

Record Range : Type := {
  start : Position.t;
  end_ : Position.t
}.

Module DiagnosticSeverity.

Definition Warning : Z := 2.

End DiagnosticSeverity.

Record Diagnostic : Type := {
  severity : Z;
  range : Range;
  message : string
}.

(** The two maps of the module: they start empty and are filled when a
    [Legend] is constructed. *)
Record Globals : Type := {
  tokenTypesMap : Js.Map Z;
  tokenModifiersMap : Js.Map Z
}.

Definition initialGlobals : Globals :=
  {| tokenTypesMap := []; tokenModifiersMap := [] |}.

Definition tokenTypesLegend : list string :=
  [ "comment"; "string"; "keyword"; "number"; "regexp"; "operator";
    "namespace"; "type"; "struct"; "class"; "interface"; "enum";
    "typeParameter"; "function"; "method"; "decorator"; "macro"; "variable";
    "parameter"; "property"; "label" ].

Definition tokenModifiersLegend : list string :=
  [ "declaration"; "documentation"; "readonly"; "static"; "abstract";
    "deprecated"; "modification"; "async" ].

(** [a.forEach((x, index) => ...)] from a given index on, the callback
    acting on a state. *)
Fixpoint forEachFrom {A S : Type} (f : A -> Z -> S -> S) (a : list A)
  (index : Z) (s : S) : S :=
  match a with
  | [] => s
  | x :: rest => forEachFrom f rest (index + 1) (f x index s)
  end.

Definition forEach {A S : Type} (f : A -> Z -> S -> S) (a : list A) (s : S)
  : S :=
  forEachFrom f a 0 s.

Record Legend : Type := {
  tokenTypes : list string;
  tokenModifiers : list string
}.

(** [new Legend()]: the new object and the maps of the module after it. *)
Definition Legend_new (g : Globals) : Legend * Globals :=
  let '(types, typesMap) :=
    forEach
      (fun tokenType index '(this_tokenTypes, map) =>
         (this_tokenTypes ++ [tokenType], JsMap.set map tokenType index))
      tokenTypesLegend ([], tokenTypesMap g) in
  let '(modifiers, modifiersMap) :=
    forEach
      (fun tokenModifier index '(this_tokenModifiers, map) =>
         (this_tokenModifiers ++ [tokenModifier],
          JsMap.set map tokenModifier index))
      tokenModifiersLegend ([], tokenModifiersMap g) in
  ({| tokenTypes := types; tokenModifiers := modifiers |},
   {| tokenTypesMap := typesMap; tokenModifiersMap := modifiersMap |}).

(** [_encodeTokenType]: the [get] after a successful [has] gives a
    number. *)
Definition _encodeTokenType (g : Globals) (tokenType : string) : Z :=
  if JsMap.has (tokenTypesMap g) tokenType then
    match JsMap.get (tokenTypesMap g) tokenType with
    | Some index => index
    | None => 0
    end
  else 0.

Record IParsedToken : Type := {
  line : Z;
  startCharacter : Z;
  length : Z;
  tokenType : string
}.

(** The object every listener method pushes for a token. *)
Definition parsedToken (token : antlr4ts.Token) (type : string)
  : IParsedToken :=
  {| line := antlr4ts.line token - 1;
     startCharacter := antlr4ts.startIndex token;
     length := antlr4ts.stopIndex token - antlr4ts.startIndex token + 1;
     tokenType := type |}.

(** What a match context gives: the token of [OPTIONAL], if there is one,
    and the token of [MATCH]. *)
Record OC_MatchContext : Type := {
  OPTIONAL : option antlr4ts.Token;
  MATCH : antlr4ts.Token
}.

(** The calls the parser makes on the listener that [SyntaxHighlighter]
    implements; the enter methods get the context's start token. *)
Inductive ListenerCall : Type :=
| enterOC_LabelName (start : antlr4ts.Token)
| enterOC_Return (start : antlr4ts.Token)
| exitOC_Match (ctx : OC_MatchContext)
| enterOC_Variable (start : antlr4ts.Token)
| enterOC_Where (start : antlr4ts.Token)
| enterOC_PropertyKeyName (start : antlr4ts.Token)
| enterOC_Literal (start : antlr4ts.Token).

(** One listener call on a [SyntaxHighlighter] whose [allTokens] is given:
    the new [allTokens]. *)
Definition SyntaxHighlighter_call (allTokens : list IParsedToken)
  (call : ListenerCall) : list IParsedToken :=
  match call with
  | enterOC_LabelName token => allTokens ++ [parsedToken token "typeParameter"]
  | enterOC_Return token => allTokens ++ [parsedToken token "keyword"]
  | exitOC_Match ctx =>
      let allTokens :=
        match OPTIONAL ctx with
        | Some optToken => allTokens ++ [parsedToken optToken "decorator"]
        | None => allTokens
        end in
      allTokens ++ [parsedToken (MATCH ctx) "method"]
  | enterOC_Variable token => allTokens ++ [parsedToken token "variable"]
  | enterOC_Where token => allTokens ++ [parsedToken token "keyword"]
  | enterOC_PropertyKeyName token => allTokens ++ [parsedToken token "property"]
  | enterOC_Literal token => allTokens ++ [parsedToken token "string"]
  end.

(** The tokens a listener call reads, in the order it pushes them. *)
Definition tokensOfCall (call : ListenerCall) : list antlr4ts.Token :=
  match call with
  | exitOC_Match ctx =>
      match OPTIONAL ctx with
      | Some optToken => [optToken; MATCH ctx]
      | None => [MATCH ctx]
      end
  | enterOC_LabelName token
  | enterOC_Return token
  | enterOC_Variable token
  | enterOC_Where token
  | enterOC_PropertyKeyName token
  | enterOC_Literal token => [token]
  end.

(** [allTokens] of a fresh [SyntaxHighlighter] after the calls of a
    parse. *)
Definition SyntaxHighlighter_allTokens (calls : list ListenerCall)
  : list IParsedToken :=
  fold_left SyntaxHighlighter_call calls [].

(** [a.sort(compare)]: the sort is stable, so for a comparator that orders
    by a number the result is the one arrangement that is sorted and keeps
    equal elements in their order; it is computed here by insertion. *)
Fixpoint insertBy {A : Type} (compare : A -> A -> Z) (x : A) (a : list A)
  : list A :=
  match a with
  | [] => [x]
  | y :: rest =>
      if compare x y <=? 0 then x :: y :: rest
      else y :: insertBy compare x rest
  end.

Fixpoint sort {A : Type} (compare : A -> A -> Z) (a : list A) : list A :=
  match a with
  | [] => []
  | x :: rest => insertBy compare x (sort compare rest)
  end.

(** One [builder.push(line, char, length, tokenType, tokenModifiers)]. *)
Record BuilderPush : Type := {
  pushLine : Z;
  pushChar : Z;
  pushLength : Z;
  pushTokenType : Z;
  pushTokenModifiers : Z
}.

Definition sortedTokens (calls : list ListenerCall) : list IParsedToken :=
  sort (fun a b => startCharacter a - startCharacter b)
    (SyntaxHighlighter_allTokens calls).

(** [SyntaxError]: one call of the parser on its error listener. *)
Record SyntaxErrorCall : Type := {
  offendingSymbol : option antlr4ts.Token;
  errorLine : Z;
  charPositionInLine : Z;
  msg : string
}.

(** [ErrorListener.syntaxError]: the [diagnostics] after the call. *)
Definition syntaxError (diagnostics : list Diagnostic)
  (call : SyntaxErrorCall) : list Diagnostic :=
  let lineIndex :=
    match offendingSymbol call with
    | Some symbol => antlr4ts.line symbol
    | None => 1
    end - 1 in
  let start :=
    match offendingSymbol call with
    | Some symbol => antlr4ts.startIndex symbol
    | None => 0
    end in
  let end_ :=
    match offendingSymbol call with
    | Some symbol => antlr4ts.stopIndex symbol
    | None => 0
    end + 1 in
  let diagnostic :=
    {| severity := DiagnosticSeverity.Warning;
       range := {| start := Position.create lineIndex start;
                   end_ := Position.create lineIndex end_ |};
       message := msg call |} in
  diagnostics ++ [diagnostic].

Section Parser.

(** The parser of the grammar, by what it does to its listeners on a text:
    the calls on the parse listener and the calls on the error listener. *)
Variable oC_Cypher : string -> list ListenerCall * list SyntaxErrorCall.

(** [provideDocumentSemanticTokens], up to [builder.build()]: the pushes
    made on the builder, in their order. *)
Definition provideDocumentSemanticTokens (g : Globals) (lineText : string)
  : list BuilderPush :=
  let calls := fst (oC_Cypher lineText) in
  map (fun token =>
         let index := _encodeTokenType g (tokenType token) in
         {| pushLine := line token;
            pushChar := startCharacter token;
            pushLength := length token;
            pushTokenType := index;
            pushTokenModifiers := 0 |})
    (sortedTokens calls).

(** [validateTextDocument]: the diagnostics of a fresh [ErrorListener]
    after the parse. *)
Definition validateTextDocument (lineText : string) : list Diagnostic :=
  fold_left syntaxError (snd (oC_Cypher lineText)) [].

End Parser.

End Highlighting.

(** ** Inputs for the further examples *)

Module Samples.

Import Highlighting.

Definition token (line startIndex stopIndex : Z) : antlr4ts.Token :=
  {| antlr4ts.line := line;
     antlr4ts.startIndex := startIndex;
     antlr4ts.stopIndex := stopIndex |}.

(** The listener calls for [OPTIONAL MATCH (n:Person) RETURN n]: the
    variable and the label are entered before the match rule is left. *)
Definition optionalMatchCalls : list ListenerCall :=
  [ enterOC_Variable (token 1 16 16);
    enterOC_LabelName (token 1 18 23);
    exitOC_Match {| OPTIONAL := Some (token 1 0 7); MATCH := token 1 9 13 |};
    enterOC_Return (token 1 26 31);
    enterOC_Variable (token 1 33 33) ].

(** Two errors: one at a token, one without an offending symbol. *)
Definition twoErrors : list SyntaxErrorCall :=
  [ {| offendingSymbol := Some (token 3 40 44);
       errorLine := 3; charPositionInLine := 4;
       msg := "mismatched input" |};
    {| offendingSymbol := None;
       errorLine := 7; charPositionInLine := 2;
       msg := "token recognition error" |} ].

Definition parser (lineText : string)
  : list ListenerCall * list SyntaxErrorCall :=
  (optionalMatchCalls, twoErrors).

(** The maps of the module once a legend has been constructed. *)
Definition legendGlobals : Globals :=
  snd (Legend_new initialGlobals).

(** A schema object without database and alias names. *)
Definition noNames : DbInfo :=
  {| procedureSignatures := Some [];
     functionSignatures := Some [];
     labels := Some ["Person"];
     relationshipTypes := Some ["KNOWS"];
     databaseNames := None;
     aliasNames := None |}.

(** A schema object with database names and without alias names. *)
Definition noAliasNames : DbInfo :=
  {| procedureSignatures := Some [];
     functionSignatures := Some [];
     labels := Some [];
     relationshipTypes := Some [];
     databaseNames := Some ["neo4j"; "system"];
     aliasNames := None |}.

(** A schema object without a function catalog. *)
Definition noFunctions : DbInfo :=
  {| procedureSignatures := Some [];
     functionSignatures := None;
     labels := Some [];
     relationshipTypes := Some [];
     databaseNames := Some [];
     aliasNames := Some [] |}.

(** The full demo schema without its labels, database names and alias
    names. *)
Definition structuralOnly : DbInfo :=
  {| procedureSignatures := procedureSignatures Demo.fullSchema;
     functionSignatures := functionSignatures Demo.fullSchema;
     labels := None;
     relationshipTypes := relationshipTypes Demo.fullSchema;
     databaseNames := None;
     aliasNames := None |}.

(** [MATCH ()-[:KN]: a label name inside a relationship pattern that is
    itself, for the collector, inside a node pattern and a label
    expression. *)
Definition relationshipLabel : Demo.ParsingResult :=
  Demo.mkResult
    {| CandidatesCollection.rules :=
         [ (13, {| startTokenIndex := 7; ruleList := [18; 17; 19] |}) ];
       CandidatesCollection.tokens := [] |}
    (Demo.lex "" "MATCH ()-[:KN")
    [Demo.root "MATCH ()-[:KN"].

(** A string literal under way: the collector reports the preferred rule
    [stringLiteral], which the classifier has no case for. *)
Definition stringLiteral : Demo.ParsingResult :=
  Demo.mkResult
    {| CandidatesCollection.rules :=
         [ (12, {| startTokenIndex := 2; ruleList := [40] |});
           (13, {| startTokenIndex := 2; ruleList := [18] |}) ];
       CandidatesCollection.tokens :=
         [ (4, {| indexes := []; optional := false |}) ] |}
    (Demo.lex "" "RETURN x")
    [Demo.root "RETURN x"].

End Samples.

(** ** Properties *)

(** *** JavaScript operations *)

Lemma filterNotNull_app {A : Type} (a b : list (option A)) :
  Js.filterNotNull (a ++ b) = Js.filterNotNull a ++ Js.filterNotNull b.
Proof.
  induction a as [|[x|] a IH]; simpl; auto.
  now rewrite IH.
Qed.

Lemma filterNotNull_map_Some {A : Type} (a : list A) :
  Js.filterNotNull (map Some a) = a.
Proof.
  induction a as [|x a IH]; simpl; auto.
  now rewrite IH.
Qed.

Lemma filterNotNull_flatten {A : Type} (r : option (list A)) :
  Js.filterNotNull (Js.flatten r) =
  match r with Some items => items | None => [] end.
Proof.
  destruct r as [items|]; simpl; auto using filterNotNull_map_Some.
Qed.

Lemma string_prefix_app (p rest : string) :
  String.prefix p (p ++ rest)%string = true.
Proof.
  induction p as [|c p IH]; simpl.
  - now destruct rest.
  - destruct (Ascii.ascii_dec c c) as [_|Hne]; [exact IH | now elim Hne].
Qed.

Lemma string_prefix_split (p s : string) :
  String.prefix p s = true -> exists rest, s = (p ++ rest)%string.
Proof.
  revert s; induction p as [|c p IH]; intros s H.
  - now exists s.
  - destruct s as [|d s]; simpl in H; [discriminate|].
    destruct (Ascii.ascii_dec c d) as [->|_]; [|discriminate].
    destruct (IH s H) as [rest ->].
    now exists rest.
Qed.

(** [s.startsWith(p)] holds exactly when [s] is [p] followed by something,
    character for character. *)
Lemma startsWith_spec (s p : string) :
  Js.startsWith s p = true <-> exists rest, s = (p ++ rest)%string.
Proof.
  unfold Js.startsWith; split.
  - apply string_prefix_split.
  - intros [rest ->]; apply string_prefix_app.
Qed.

Lemma index_length_bound {A : Type} (a : list A) (i : Z) :
  0 <= i < Js.length a -> exists x, Js.index a i = Some x.
Proof.
  unfold Js.index, Js.length; intros [Hlo Hhi].
  destruct (i <? 0) eqn:E; [apply Z.ltb_lt in E; lia|].
  destruct (nth_error a (Z.to_nat i)) as [x|] eqn:N; [now exists x|].
  apply nth_error_None in N; lia.
Qed.

Lemma append_longer (s t : string) (c : ascii) :
  (s ++ String c t)%string <> s.
Proof.
  induction s as [|a s IH]; simpl; [discriminate|].
  intros H; injection H as H; now apply IH.
Qed.

Lemma concat_nonempty (sep : string) (names : list string) :
  names <> [] -> Forall (fun name => name <> "") names ->
  String.concat sep names <> "".
Proof.
  destruct names as [|name rest]; [now intros H|]; intros _ H.
  inversion H as [|? ? Hname _]; subst.
  destruct name as [|c name]; [now elim Hname|].
  simpl; destruct rest; discriminate.
Qed.

Lemma index_map {A B : Type} (f : A -> B) (a : list A) (i : Z) :
  Js.index (map f a) i = option_map f (Js.index a i).
Proof.
  unfold Js.index; destruct (i <? 0); [reflexivity | apply nth_error_map].
Qed.

(** *** Reads leave the schema snapshot alone *)

Create HintDb readonly.

Lemma readOnly_ret {A : Type} (a : A) : readOnly (ret a).
Proof. now intros db. Qed.

Lemma readOnly_throw {A : Type} (e : Js.Error) : readOnly (@throw A e).
Proof. now intros db. Qed.

Lemma readOnly_prop {A : Type} (f : DbInfo -> option A) : readOnly (prop f).
Proof. now intros db. Qed.

Lemma readOnly_member {A : Type} (o : option A) : readOnly (member o).
Proof. destruct o; now intros db. Qed.

Lemma readOnly_bind {A B : Type} (c : M A) (k : A -> M B) :
  readOnly c -> (forall a, readOnly (k a)) -> readOnly (bind c k).
Proof.
  intros Hc Hk db; unfold bind.
  specialize (Hc db).
  destruct (c db) as [[a|e] db']; simpl in Hc; subst db'; auto.
  apply Hk.
Qed.

Lemma readOnly_flatMap {A B : Type} (f : A -> M (option (list B)))
  (a : list A) :
  (forall x, readOnly (f x)) -> readOnly (flatMap f a).
Proof.
  intros Hf; induction a as [|x a IH]; simpl.
  - apply readOnly_ret.
  - apply readOnly_bind; [apply Hf|]; intros r.
    apply readOnly_bind; [apply IH|]; intros more.
    apply readOnly_ret.
Qed.

#[local] Hint Resolve readOnly_ret readOnly_throw readOnly_prop
  readOnly_member readOnly_bind readOnly_flatMap : readonly.

Ltac read_only :=
  repeat first
    [ apply readOnly_ret | apply readOnly_throw | apply readOnly_prop
    | apply readOnly_member | apply readOnly_flatMap; intros
    | apply readOnly_bind; [|intros]
    | match goal with
      | |- readOnly (if ?b then _ else _) => destruct b
      | |- readOnly (match ?o with Some _ => _ | None => _ end) => destruct o
      end ].

(** A computation that is read-only gives its outcome and the snapshot it
    started from. *)
Lemma readOnly_run {A : Type} (c : M A) (db : DbInfo) :
  readOnly c -> c db = (fst (c db), db).
Proof.
  intros H; specialize (H db).
  destruct (c db) as [o db']; simpl in *; now subst.
Qed.

(** [flatMap] over callbacks that only read: the items that survive the
    filter are the arrays the callbacks returned, one after the other. *)
Lemma flatMap_items {A B : Type} (f : A -> M (option (list B)))
  (a : list A) (db db' : DbInfo) (r : list (option B)) :
  (forall x, readOnly (f x)) ->
  flatMap f a db = (Js.Returns r, db') ->
  Js.filterNotNull r =
  flat_map (fun x =>
              match fst (f x db) with
              | Js.Returns (Some items) => items
              | _ => []
              end) a.
Proof.
  intros Hf; revert r; induction a as [|x a IH]; simpl; intros r H.
  - unfold ret in H; now inversion H.
  - unfold bind in H.
    pose proof (Hf x db) as Hx.
    destruct (f x db) as [[o|e] db1] eqn:Ex; simpl in Hx; subst db1;
      [|discriminate].
    destruct (flatMap f a db) as [[more|e] db2] eqn:Ea; [|discriminate].
    unfold ret in H; inversion H; subst; simpl.
    rewrite filterNotNull_app, filterNotNull_flatten, (IH more eq_refl).
    now destruct o.
Qed.

(** [flatMap] returns when every callback does. *)
Lemma flatMap_returns {A B : Type} (f : A -> M (option (list B)))
  (a : list A) (db : DbInfo) :
  (forall x, exists o, f x db = (Js.Returns o, db)) ->
  exists r, flatMap f a db = (Js.Returns r, db).
Proof.
  intros Hf; induction a as [|x a [more IH]]; simpl.
  - now exists [].
  - destruct (Hf x) as [o Ho].
    exists (Js.flatten o ++ more).
    unfold bind; now rewrite Ho, IH.
Qed.

(** *** The completion code only reads the snapshot *)

Section Properties.

Context {lexer : CypherLexer.Constants} {grammar : CypherParser.Constants}.
Context {symbols : LexerSymbols}.
Context {tree : ParseTree} {collector : CandidateCollector}.
Context {wrapper : parserWrapper.Provider}.

Lemma readOnly_autocompleteRelTypes : readOnly autocompleteRelTypes.
Proof. unfold autocompleteRelTypes; auto 10 with readonly. Qed.

Lemma readOnly_autoCompleteFunctions (expr : ParserRuleContext) :
  readOnly (autoCompleteFunctions expr).
Proof. unfold autoCompleteFunctions; auto 10 with readonly. Qed.

Lemma readOnly_autoCompleteProcNames : readOnly autoCompleteProcNames.
Proof. unfold autoCompleteProcNames; auto 10 with readonly. Qed.

Lemma readOnly_autoCompleteStructurally (parsingResult : ParsingResult) :
  readOnly (autoCompleteStructurally parsingResult).
Proof.
  unfold autoCompleteStructurally; cbv zeta.
  read_only;
    auto using readOnly_autocompleteRelTypes, readOnly_autoCompleteFunctions,
      readOnly_autoCompleteProcNames.
Qed.

Lemma readOnly_autoCompleteStructurallyAddingChar (textUntilPosition : string) :
  readOnly (autoCompleteStructurallyAddingChar textUntilPosition).
Proof.
  unfold autoCompleteStructurallyAddingChar; cbv zeta.
  read_only; auto using readOnly_autocompleteRelTypes.
Qed.

Lemma readOnly_ruleCandidate (parsingResult : ParsingResult)
  (lc rc pc : list CompletionItem) (candidate : Z * CandidateRule) :
  readOnly (ruleCandidate parsingResult lc rc pc candidate).
Proof.
  destruct candidate as [ruleNumber candidateRule].
  unfold ruleCandidate.
  read_only.
Qed.

Lemma readOnly_ruleCompletions (parsingResult : ParsingResult)
  (lc rc pc : list CompletionItem) (rules : list (Z * CandidateRule)) :
  readOnly (ruleCompletions parsingResult lc rc pc rules).
Proof.
  unfold ruleCompletions; read_only.
  apply readOnly_ruleCandidate.
Qed.

Lemma readOnly_completionCoreCompletion (parsingResult : ParsingResult) :
  readOnly (completionCoreCompletion parsingResult).
Proof.
  unfold completionCoreCompletion; cbv zeta.
  destruct (0 <=? caretIndex parsingResult); [|apply readOnly_ret].
  repeat (apply readOnly_bind;
          [first [apply readOnly_prop | apply readOnly_member]|intros]).
  apply readOnly_bind; [apply readOnly_ruleCompletions|intros].
  apply readOnly_ret.
Qed.

(** *** The caret index is never negative *)

Lemma caretIndex_nonneg (parsingResult : ParsingResult) :
  (0 <=? caretIndex parsingResult) = true.
Proof.
  unfold caretIndex.
  destruct (1 <? Js.length (tokens parsingResult)) eqn:E;
    apply Z.leb_le; [apply Z.ltb_lt in E|]; lia.
Qed.

(** *** The shape of the result of [completionCoreCompletion] *)

(** The function reads four catalogs at once, in this order, and throws at
    the first that is absent; then come the rule pipeline on the three
    completion lists and the keyword items.  The list made from the function
    catalog is dropped. *)
Lemma completionCoreCompletion_unfold (parsingResult : ParsingResult)
  (db : DbInfo) :
  completionCoreCompletion parsingResult db =
  match labels db with
  | None => (Js.Throws Js.TypeError, db)
  | Some ls =>
      match relationshipTypes db with
      | None => (Js.Throws Js.TypeError, db)
      | Some rs =>
          match procedureSignatures db with
          | None => (Js.Throws Js.TypeError, db)
          | Some ps =>
              match functionSignatures db with
              | None => (Js.Throws Js.TypeError, db)
              | Some fs =>
                  bind
                    (ruleCompletions parsingResult
                       (map (item TypeParameter) ls)
                       (map (item TypeParameter) rs)
                       (map (item Function) (Js.keys ps))
                       (CandidatesCollection.rules
                          (candidatesAt parsingResult)))
                    (fun items =>
                       ret (items
                              ++ tokenCompletions
                                   (CandidatesCollection.tokens
                                      (candidatesAt parsingResult)))) db
              end
          end
      end
  end.
Proof.
  unfold completionCoreCompletion.
  rewrite caretIndex_nonneg; cbv zeta.
  unfold bind, prop, member, ret, throw; cbv beta iota.
  destruct (labels db) as [ls|]; cbv beta iota; [|reflexivity].
  destruct (relationshipTypes db) as [rs|]; cbv beta iota; [|reflexivity].
  destruct (procedureSignatures db) as [ps|]; cbv beta iota; [|reflexivity].
  destruct (functionSignatures db) as [fs|]; reflexivity.
Qed.

(** With the four catalogs it reads at once present, the function is the
    rule pipeline on the three completion lists followed by the keyword
    items.  The function catalog is read and its list dropped. *)
Lemma completionCoreCompletion_eager (parsingResult : ParsingResult)
  (db : DbInfo) (ls rs : list string) (ps fs : Js.Map SignatureInformation) :
  labels db = Some ls ->
  relationshipTypes db = Some rs ->
  procedureSignatures db = Some ps ->
  functionSignatures db = Some fs ->
  completionCoreCompletion parsingResult db =
  (items <-
     ruleCompletions parsingResult (map (item TypeParameter) ls)
       (map (item TypeParameter) rs) (map (item Function) (Js.keys ps))
       (CandidatesCollection.rules (candidatesAt parsingResult)) ;;
   ret (items
          ++ tokenCompletions
               (CandidatesCollection.tokens (candidatesAt parsingResult)))) db.
Proof.
  intros Hl Hr Hp Hf.
  unfold completionCoreCompletion.
  rewrite caretIndex_nonneg; cbv zeta.
  unfold bind, prop, member, ret; cbv beta iota.
  rewrite Hl; cbv beta iota; rewrite Hr; cbv beta iota.
  rewrite Hp; cbv beta iota; rewrite Hf; reflexivity.
Qed.

(** When it returns, the four catalogs were present. *)
Lemma completionCoreCompletion_reads (parsingResult : ParsingResult)
  (db : DbInfo) (items : list CompletionItem) :
  fst (completionCoreCompletion parsingResult db) = Js.Returns items ->
  exists ls rs ps fs,
    labels db = Some ls /\ relationshipTypes db = Some rs
    /\ procedureSignatures db = Some ps /\ functionSignatures db = Some fs.
Proof.
  unfold completionCoreCompletion.
  rewrite caretIndex_nonneg; cbv zeta.
  unfold bind, prop, member, ret, throw; cbv beta iota.
  destruct (labels db) as [ls|]; [|discriminate]; cbv beta iota.
  destruct (relationshipTypes db) as [rs|]; [|discriminate]; cbv beta iota.
  destruct (procedureSignatures db) as [ps|]; [|discriminate]; cbv beta iota.
  destruct (functionSignatures db) as [fs|]; [|discriminate].
  intros _; now exists ls, rs, ps, fs.
Qed.

Lemma ruleCompletions_items (parsingResult : ParsingResult)
  (lc rc pc : list CompletionItem) (rules : list (Z * CandidateRule))
  (db : DbInfo) (items : list CompletionItem) :
  fst (ruleCompletions parsingResult lc rc pc rules db) = Js.Returns items ->
  items = flat_map (contribution parsingResult lc rc pc db) rules.
Proof.
  unfold ruleCompletions, bind, Js.entries; intros H.
  destruct (flatMap _ rules db) as [[r|e] db'] eqn:E; [|discriminate].
  unfold ret in H; simpl in H; inversion H; subst items.
  eapply flatMap_items; [|exact E].
  intros x; apply readOnly_ruleCandidate.
Qed.

(** The items of a returned result: the contributions of the candidate
    rules in their order, then the keyword items. *)
Lemma completionCoreCompletion_items (parsingResult : ParsingResult)
  (db : DbInfo) (items : list CompletionItem) :
  fst (completionCoreCompletion parsingResult db) = Js.Returns items ->
  exists ls rs ps fs,
    labels db = Some ls /\ relationshipTypes db = Some rs
    /\ procedureSignatures db = Some ps /\ functionSignatures db = Some fs
    /\ items =
       flat_map
         (contribution parsingResult (map (item TypeParameter) ls)
            (map (item TypeParameter) rs) (map (item Function) (Js.keys ps))
            db)
         (CandidatesCollection.rules (candidatesAt parsingResult))
       ++ tokenCompletions
            (CandidatesCollection.tokens (candidatesAt parsingResult)).
Proof.
  intros H.
  destruct (completionCoreCompletion_reads _ _ _ H)
    as (ls & rs & ps & fs & Hl & Hr & Hp & Hf).
  exists ls, rs, ps, fs; repeat (split; [assumption|]).
  rewrite (completionCoreCompletion_eager _ _ _ _ _ _ Hl Hr Hp Hf) in H.
  unfold bind in H.
  destruct (ruleCompletions _ _ _ _ _ db) as [[r|e] db'] eqn:E;
    [|discriminate].
  unfold ret in H; simpl in H; inversion H; f_equal.
  apply ruleCompletions_items; now rewrite E.
Qed.

(** A candidate's callback returns when the two catalogs it may read are
    present. *)
Lemma ruleCandidate_returns (parsingResult : ParsingResult)
  (lc rc pc : list CompletionItem) (candidate : Z * CandidateRule)
  (db : DbInfo) :
  isDefined (databaseNames db) = true ->
  isDefined (aliasNames db) = true ->
  exists o,
    ruleCandidate parsingResult lc rc pc candidate db = (Js.Returns o, db).
Proof.
  intros Hd Ha.
  destruct candidate as [ruleNumber candidateRule].
  destruct (databaseNames db) as [ds|] eqn:Ed; [|discriminate].
  destruct (aliasNames db) as [als|] eqn:Ea; [|discriminate].
  unfold ruleCandidate.
  repeat match goal with
         | |- context [if ?b then _ else _] => destruct b
         end;
    unfold bind, prop, member, ret; cbv beta iota;
    rewrite ?Ed, ?Ea; cbv beta iota; eauto.
Qed.

Lemma ruleCompletions_returns (parsingResult : ParsingResult)
  (lc rc pc : list CompletionItem) (rules : list (Z * CandidateRule))
  (db : DbInfo) :
  isDefined (databaseNames db) = true ->
  isDefined (aliasNames db) = true ->
  exists items,
    ruleCompletions parsingResult lc rc pc rules db = (Js.Returns items, db).
Proof.
  intros Hd Ha.
  destruct (flatMap_returns
              (ruleCandidate parsingResult lc rc pc) (Js.entries rules) db)
    as [r Hr].
  - intros x; now apply ruleCandidate_returns.
  - exists (Js.filterNotNull r).
    unfold ruleCompletions, bind; now rewrite Hr.
Qed.

Lemma allPresent_fields (db : DbInfo) :
  allPresent db = true ->
  exists ls rs ps fs ds als,
    labels db = Some ls /\ relationshipTypes db = Some rs
    /\ procedureSignatures db = Some ps /\ functionSignatures db = Some fs
    /\ databaseNames db = Some ds /\ aliasNames db = Some als.
Proof.
  unfold allPresent; intros H.
  repeat (apply andb_prop in H; destruct H as [H ?]).
  destruct (labels db) as [ls|]; [|discriminate].
  destruct (relationshipTypes db) as [rs|]; [|discriminate].
  destruct (procedureSignatures db) as [ps|]; [|discriminate].
  destruct (functionSignatures db) as [fs|]; [|discriminate].
  destruct (databaseNames db) as [ds|]; [|discriminate].
  destruct (aliasNames db) as [als|]; [|discriminate].
  now exists ls, rs, ps, fs, ds, als.
Qed.

Lemma completionCoreCompletion_returns (parsingResult : ParsingResult)
  (db : DbInfo) :
  allPresent db = true ->
  exists items,
    completionCoreCompletion parsingResult db = (Js.Returns items, db).
Proof.
  intros H.
  destruct (allPresent_fields db H)
    as (ls & rs & ps & fs & ds & als & Hl & Hr & Hp & Hf & Hd & Ha).
  rewrite (completionCoreCompletion_eager _ _ _ _ _ _ Hl Hr Hp Hf).
  destruct (ruleCompletions_returns parsingResult
              (map (item TypeParameter) ls) (map (item TypeParameter) rs)
              (map (item Function) (Js.keys ps))
              (CandidatesCollection.rules (candidatesAt parsingResult)) db)
    as [items Hi]; [now rewrite Hd | now rewrite Ha |].
  eexists; unfold bind; rewrite Hi; reflexivity.
Qed.

(** *** The candidate classifier *)

(** The callback on an alias-name candidate, once the rule numbers are told
    apart. *)
Lemma ruleCandidate_alias (parsingResult : ParsingResult)
  (lc rc pc : list CompletionItem) (candidateRule : CandidateRule) :
  CypherParser.RULE_symbolicAliasName
    <> CypherParser.RULE_unescapedSymbolicNameString ->
  CypherParser.RULE_symbolicAliasName
    <> CypherParser.RULE_symbolicLabelNameString ->
  ruleCandidate parsingResult lc rc pc
    (CypherParser.RULE_symbolicAliasName, candidateRule) =
  if match Js.index (tokens parsingResult)
             (startTokenIndex candidateRule + 1) with
     | Some next => type next =? CypherLexer.SPACE
     | None => false
     end
  then ret None
  else if Js.some rulesCreatingNewAliasOrDb
            (fun rule => Js.includes (ruleList candidateRule) rule)
  then ret None
  else if Js.some rulesThatOnlyAcceptAlias
            (fun rule => Js.includes (ruleList candidateRule) rule)
  then
    bind (prop aliasNames) (fun als =>
    bind (member als) (fun als =>
    ret (Some (map (item Value) als))))
  else
    bind (prop databaseNames) (fun dbs =>
    bind (member dbs) (fun dbs =>
    bind (prop aliasNames) (fun als =>
    ret (Some (map (fun databaseName =>
                      {| label := databaseName; kind := Value |})
                 (Js.concat dbs als)))))).
Proof.
  intros H1 H2; unfold ruleCandidate.
  apply Z.eqb_neq in H1, H2; rewrite H1, H2, Z.eqb_refl; reflexivity.
Qed.

Lemma contribution_of_outcome (parsingResult : ParsingResult)
  (lc rc pc : list CompletionItem) (candidate : Z * CandidateRule)
  (db : DbInfo) (o : option (list CompletionItem)) :
  ruleCandidate parsingResult lc rc pc candidate db = (Js.Returns o, db) ->
  contribution parsingResult lc rc pc db candidate =
  match o with Some items => items | None => [] end.
Proof.
  unfold contribution; intros ->; now destruct o.
Qed.

(** Where a candidate's contribution sits in a returned result. *)
Lemma completionCoreCompletion_segment (parsingResult : ParsingResult)
  (db : DbInfo) (items : list CompletionItem)
  (pre post : list (Z * CandidateRule)) (candidate : Z * CandidateRule) :
  fst (completionCoreCompletion parsingResult db) = Js.Returns items ->
  CandidatesCollection.rules (candidatesAt parsingResult)
  = pre ++ candidate :: post ->
  exists ls rs ps,
    labels db = Some ls /\ relationshipTypes db = Some rs
    /\ procedureSignatures db = Some ps
    /\ items =
       flat_map
         (contribution parsingResult (map (item TypeParameter) ls)
            (map (item TypeParameter) rs) (map (item Function) (Js.keys ps))
            db) pre
       ++ contribution parsingResult (map (item TypeParameter) ls)
            (map (item TypeParameter) rs) (map (item Function) (Js.keys ps))
            db candidate
       ++ flat_map
            (contribution parsingResult (map (item TypeParameter) ls)
               (map (item TypeParameter) rs)
               (map (item Function) (Js.keys ps)) db) post
       ++ tokenCompletions
            (CandidatesCollection.tokens (candidatesAt parsingResult)).
Proof.
  intros H Hrules.
  destruct (completionCoreCompletion_items _ _ _ H)
    as (ls & rs & ps & fs & Hl & Hr & Hp & _ & ->).
  exists ls, rs, ps; repeat (split; [assumption|]).
  rewrite Hrules, flat_map_app; simpl.
  now rewrite <- !app_assoc.
Qed.

(** C1: An alias-name candidate (rule [symbolicAliasName]) is dispatched,
    first match wins: when the token right after the rule's start token is
    whitespace it contributes nothing, whatever the catalogs hold (or lack);
    else when its rule stack holds a creation rule (create alias, create
    database, create composite database) it contributes nothing; else when
    the stack holds an alias-only rule (drop alias, alter alias, show
    aliases) it contributes one [Value] item per alias name; otherwise one
    [Value] item per name of the database names followed by the alias names.
    The contribution is the candidate's segment of the returned result. *)
Theorem alias_name_candidate_dispatch (parsingResult : ParsingResult)
  (candidateRule : CandidateRule) :
  CypherParser.RULE_symbolicAliasName
    <> CypherParser.RULE_unescapedSymbolicNameString ->
  CypherParser.RULE_symbolicAliasName
    <> CypherParser.RULE_symbolicLabelNameString ->
  let candidate := (CypherParser.RULE_symbolicAliasName, candidateRule) in
  let followedBySpace :=
    match Js.index (tokens parsingResult)
            (startTokenIndex candidateRule + 1) with
    | Some next => type next =? CypherLexer.SPACE
    | None => false
    end in
  let creating :=
    existsb (fun rule => Js.includes (ruleList candidateRule) rule)
      [ CypherParser.RULE_createAlias; CypherParser.RULE_createDatabase;
        CypherParser.RULE_createCompositeDatabase ] in
  let aliasOnly :=
    existsb (fun rule => Js.includes (ruleList candidateRule) rule)
      [ CypherParser.RULE_dropAlias; CypherParser.RULE_alterAlias;
        CypherParser.RULE_showAliases ] in
  (followedBySpace = true ->
   forall lc rc pc db,
     ruleCandidate parsingResult lc rc pc candidate db = (Js.Returns None, db)
     /\ contribution parsingResult lc rc pc db candidate = [])
  /\ (followedBySpace = false -> creating = true ->
      forall lc rc pc db,
        ruleCandidate parsingResult lc rc pc candidate db
        = (Js.Returns None, db)
        /\ contribution parsingResult lc rc pc db candidate = [])
  /\ (followedBySpace = false -> creating = false -> aliasOnly = true ->
      forall lc rc pc db als,
        aliasNames db = Some als ->
        ruleCandidate parsingResult lc rc pc candidate db
        = (Js.Returns (Some (map (item Value) als)), db)
        /\ contribution parsingResult lc rc pc db candidate
           = map (item Value) als)
  /\ (followedBySpace = false -> creating = false -> aliasOnly = false ->
      forall lc rc pc db dbs als,
        databaseNames db = Some dbs ->
        aliasNames db = Some als ->
        ruleCandidate parsingResult lc rc pc candidate db
        = (Js.Returns (Some (map (item Value) (dbs ++ als))), db)
        /\ contribution parsingResult lc rc pc db candidate
           = map (item Value) (dbs ++ als))
  /\ (forall db items pre post,
        fst (completionCoreCompletion parsingResult db) = Js.Returns items ->
        CandidatesCollection.rules (candidatesAt parsingResult)
        = pre ++ candidate :: post ->
        exists ls rs ps,
          labels db = Some ls /\ relationshipTypes db = Some rs
          /\ procedureSignatures db = Some ps
          /\ items =
             flat_map
               (contribution parsingResult (map (item TypeParameter) ls)
                  (map (item TypeParameter) rs)
                  (map (item Function) (Js.keys ps)) db) pre
             ++ contribution parsingResult (map (item TypeParameter) ls)
                  (map (item TypeParameter) rs)
                  (map (item Function) (Js.keys ps)) db candidate
             ++ flat_map
                  (contribution parsingResult (map (item TypeParameter) ls)
                     (map (item TypeParameter) rs)
                     (map (item Function) (Js.keys ps)) db) post
             ++ tokenCompletions
                  (CandidatesCollection.tokens (candidatesAt parsingResult))).
Proof.
  intros H1 H2 candidate followedBySpace creating aliasOnly.
  assert (Hcb : forall lc rc pc db o,
             ruleCandidate parsingResult lc rc pc candidate db
             = (Js.Returns o, db) ->
             ruleCandidate parsingResult lc rc pc candidate db
             = (Js.Returns o, db)
             /\ contribution parsingResult lc rc pc db candidate
                = match o with Some items => items | None => [] end)
    by (intros; split; [assumption | now apply contribution_of_outcome]).
  split; [|split; [|split; [|split]]].
  - intros Hs lc rc pc db.
    apply (Hcb lc rc pc db None).
    unfold candidate; rewrite ruleCandidate_alias by assumption.
    fold followedBySpace; now rewrite Hs.
  - intros Hs Hc lc rc pc db.
    apply (Hcb lc rc pc db None).
    unfold candidate; rewrite ruleCandidate_alias by assumption.
    fold followedBySpace; rewrite Hs.
    unfold Js.some, rulesCreatingNewAliasOrDb; fold creating; now rewrite Hc.
  - intros Hs Hc Ha lc rc pc db als Hals.
    apply (Hcb lc rc pc db (Some (map (item Value) als))).
    unfold candidate; rewrite ruleCandidate_alias by assumption.
    fold followedBySpace; rewrite Hs.
    unfold Js.some, rulesCreatingNewAliasOrDb, rulesThatOnlyAcceptAlias.
    fold creating; fold aliasOnly; rewrite Hc, Ha.
    unfold bind, prop, member; now rewrite Hals.
  - intros Hs Hc Ha lc rc pc db dbs als Hdbs Hals.
    apply (Hcb lc rc pc db (Some (map (item Value) (dbs ++ als)))).
    unfold candidate; rewrite ruleCandidate_alias by assumption.
    fold followedBySpace; rewrite Hs.
    unfold Js.some, rulesCreatingNewAliasOrDb, rulesThatOnlyAcceptAlias.
    fold creating; fold aliasOnly; rewrite Hc, Ha.
    unfold bind, prop, member, ret; cbv beta iota.
    rewrite Hdbs; cbv beta iota; rewrite Hals; unfold Js.concat.
    now rewrite map_map.
  - intros db items pre post H Hrules.
    now apply completionCoreCompletion_segment.
Qed.

(** The callback on a name candidate inside a procedure or function
    name. *)
Lemma ruleCandidate_callable_name (parsingResult : ParsingResult)
  (lc rc pc : list CompletionItem) (ruleNumber : Z)
  (candidateRule : CandidateRule) :
  ruleNumber = CypherParser.RULE_unescapedSymbolicNameString
  \/ ruleNumber = CypherParser.RULE_symbolicLabelNameString ->
  Js.includes (ruleList candidateRule) CypherParser.RULE_procedureName = true
  \/ Js.includes (ruleList candidateRule) CypherParser.RULE_functionName
     = true ->
  ruleCandidate parsingResult lc rc pc (ruleNumber, candidateRule)
  = ret (Some pc).
Proof.
  intros Hrule Hstack; unfold ruleCandidate.
  assert ((ruleNumber =? CypherParser.RULE_unescapedSymbolicNameString)
          || (ruleNumber =? CypherParser.RULE_symbolicLabelNameString)
          = true) as ->.
  { apply orb_true_iff; destruct Hrule as [->| ->];
      [left | right]; apply Z.eqb_refl. }
  destruct (Js.includes (ruleList candidateRule)
              CypherParser.RULE_procedureName); [reflexivity|].
  destruct Hstack as [Hp|Hf]; [discriminate | now rewrite Hf].
Qed.

(** The outcome of a callback depends on the snapshot through the database
    and alias names only. *)
Lemma ruleCandidate_same_outcome (parsingResult : ParsingResult)
  (lc rc pc : list CompletionItem) (candidate : Z * CandidateRule)
  (db db' : DbInfo) :
  databaseNames db' = databaseNames db ->
  aliasNames db' = aliasNames db ->
  fst (ruleCandidate parsingResult lc rc pc candidate db')
  = fst (ruleCandidate parsingResult lc rc pc candidate db).
Proof.
  intros Hd Ha; destruct candidate as [ruleNumber candidateRule].
  unfold ruleCandidate.
  repeat match goal with
         | |- context [if ?b then _ else _] => destruct b
         end;
    unfold bind, prop, member, ret, throw; cbv beta iota;
    rewrite ?Hd, ?Ha; try reflexivity.
  - now destruct (aliasNames db).
  - destruct (databaseNames db); cbv beta iota; [|reflexivity].
    now rewrite Ha.
Qed.

Lemma flatMap_same_outcome {A B : Type} (f : A -> M (option (list B)))
  (a : list A) (db db' : DbInfo) :
  (forall x, readOnly (f x)) ->
  (forall x, fst (f x db') = fst (f x db)) ->
  fst (flatMap f a db') = fst (flatMap f a db).
Proof.
  intros Hro Hf; induction a as [|x a IH]; simpl; [reflexivity|].
  unfold bind.
  rewrite (readOnly_run (f x) db'), (readOnly_run (f x) db), Hf by apply Hro.
  destruct (fst (f x db)) as [o|e]; [|reflexivity].
  rewrite (readOnly_run (flatMap f a) db'), (readOnly_run (flatMap f a) db),
    IH by now apply readOnly_flatMap.
  now destruct (fst (flatMap f a db)).
Qed.

Lemma ruleCompletions_same_outcome (parsingResult : ParsingResult)
  (lc rc pc : list CompletionItem) (rules : list (Z * CandidateRule))
  (db db' : DbInfo) :
  databaseNames db' = databaseNames db ->
  aliasNames db' = aliasNames db ->
  fst (ruleCompletions parsingResult lc rc pc rules db')
  = fst (ruleCompletions parsingResult lc rc pc rules db).
Proof.
  intros Hd Ha; unfold ruleCompletions, bind.
  set (f := ruleCandidate parsingResult lc rc pc).
  assert (Hro : readOnly (flatMap f (Js.entries rules)))
    by (apply readOnly_flatMap; intros x; apply readOnly_ruleCandidate).
  rewrite (readOnly_run _ db' Hro), (readOnly_run _ db Hro).
  rewrite (flatMap_same_outcome f (Js.entries rules) db db').
  - now destruct (fst (flatMap f (Js.entries rules) db)).
  - intros x; apply readOnly_ruleCandidate.
  - intros x; now apply ruleCandidate_same_outcome.
Qed.

(** The content of the function catalog has no part in the result. *)
Lemma completionCoreCompletion_functions_unused
  (parsingResult : ParsingResult) (db : DbInfo)
  (fs fs' : Js.Map SignatureInformation) :
  functionSignatures db = Some fs ->
  fst (completionCoreCompletion parsingResult (withFunctionSignatures db fs'))
  = fst (completionCoreCompletion parsingResult db).
Proof.
  intros Hf.
  rewrite !completionCoreCompletion_unfold.
  cbn [withFunctionSignatures labels relationshipTypes procedureSignatures
         functionSignatures].
  rewrite Hf.
  destruct (labels db) as [ls|]; [|reflexivity].
  destruct (relationshipTypes db) as [rs|]; [|reflexivity].
  destruct (procedureSignatures db) as [ps|]; [|reflexivity].
  unfold bind.
  set (c := ruleCompletions parsingResult _ _ _ _).
  assert (Hro : readOnly c) by apply readOnly_ruleCompletions.
  rewrite (readOnly_run c _ Hro), (readOnly_run c db Hro).
  unfold c; rewrite (ruleCompletions_same_outcome _ _ _ _ _ db) by reflexivity.
  now destruct (fst (ruleCompletions _ _ _ _ _ db)).
Qed.

(** C2: A candidate reported as the unescaped-symbolic-name-string or the
    label-name-string rule whose rule stack holds the procedure-name rule or
    the function-name rule contributes exactly one [Function] item per
    procedure name: the function-name context gives the procedure list too,
    and the content of the function catalog has no part in the result. *)
Theorem callable_name_candidate_gives_procedures
  (parsingResult : ParsingResult) (ruleNumber : Z)
  (candidateRule : CandidateRule) :
  ruleNumber = CypherParser.RULE_unescapedSymbolicNameString
  \/ ruleNumber = CypherParser.RULE_symbolicLabelNameString ->
  Js.includes (ruleList candidateRule) CypherParser.RULE_procedureName = true
  \/ Js.includes (ruleList candidateRule) CypherParser.RULE_functionName
     = true ->
  (forall lc rc pc db,
     ruleCandidate parsingResult lc rc pc (ruleNumber, candidateRule) db
     = (Js.Returns (Some pc), db)
     /\ contribution parsingResult lc rc pc db (ruleNumber, candidateRule)
        = pc)
  /\ (forall db items pre post,
        fst (completionCoreCompletion parsingResult db) = Js.Returns items ->
        CandidatesCollection.rules (candidatesAt parsingResult)
        = pre ++ (ruleNumber, candidateRule) :: post ->
        exists ls rs ps,
          labels db = Some ls /\ relationshipTypes db = Some rs
          /\ procedureSignatures db = Some ps
          /\ items =
             flat_map
               (contribution parsingResult (map (item TypeParameter) ls)
                  (map (item TypeParameter) rs)
                  (map (item Function) (Js.keys ps)) db) pre
             ++ map (item Function) (Js.keys ps)
             ++ flat_map
                  (contribution parsingResult (map (item TypeParameter) ls)
                     (map (item TypeParameter) rs)
                     (map (item Function) (Js.keys ps)) db) post
             ++ tokenCompletions
                  (CandidatesCollection.tokens (candidatesAt parsingResult)))
  /\ (forall db fs fs',
        functionSignatures db = Some fs ->
        fst (completionCoreCompletion parsingResult
               (withFunctionSignatures db fs'))
        = fst (completionCoreCompletion parsingResult db)).
Proof.
  intros Hrule Hstack.
  assert (Hcb : forall lc rc pc db,
             ruleCandidate parsingResult lc rc pc (ruleNumber, candidateRule)
               db = (Js.Returns (Some pc), db)
             /\ contribution parsingResult lc rc pc db
                  (ruleNumber, candidateRule) = pc).
  { intros lc rc pc db.
    assert (ruleCandidate parsingResult lc rc pc (ruleNumber, candidateRule)
              db = (Js.Returns (Some pc), db)) as E
      by now rewrite ruleCandidate_callable_name.
    split; [exact E | now rewrite (contribution_of_outcome _ _ _ _ _ _ _ E)]. }
  split; [exact Hcb|split].
  - intros db items pre post H Hrules.
    destruct (completionCoreCompletion_segment _ _ _ _ _ _ H Hrules)
      as (ls & rs & ps & Hl & Hr & Hp & ->).
    exists ls, rs, ps; repeat (split; [assumption|]).
    now rewrite (proj2 (Hcb _ _ _ db)).
  - intros db fs fs'.
    apply completionCoreCompletion_functions_unused.
Qed.

(** *** The token label formatter *)

(** C3 (amended): A candidate token without a display name contributes no
    label.  With a display name, what decides is the rendering of its
    follow-up sequence (the follow-up tokens' display names joined by single
    spaces, a token without a display name rendered as nothing): when the
    rendering is empty, as it is without follow-up tokens, the candidate
    contributes the display name alone; when it is not empty and the
    follow-up is mandatory, exactly one label, the display name, a space and
    the rendering, which is never the bare display name; when it is not empty
    and the follow-up is optional, the bare display name and the combined
    form.  When there are follow-up tokens and each has a display name that
    is not empty, the rendering is these names joined by single spaces and
    is not empty.  Every label becomes a [Keyword] item. *)
Theorem token_candidate_labels (tokenNumber : Z)
  (followUpList : FollowUpList) :
  let candidate := (tokenNumber, followUpList) in
  let rendering := followUpString followUpList in
  (tokenNames tokenNumber = None -> tokenCandidate candidate = [])
  /\ (forall name,
        tokenNames tokenNumber = Some name ->
        (rendering = "" -> tokenCandidate candidate = [name])
        /\ (rendering <> "" -> optional followUpList = false ->
            tokenCandidate candidate = [(name ++ " " ++ rendering)%string]
            /\ (name ++ " " ++ rendering)%string <> name)
        /\ (rendering <> "" -> optional followUpList = true ->
            tokenCandidate candidate
            = [name; (name ++ " " ++ rendering)%string]))
  /\ (indexes followUpList = [] -> rendering = "")
  /\ (forall name names,
        tokenNames tokenNumber = Some name ->
        map (fun i => tokenNames i) (indexes followUpList) = map Some names ->
        names <> [] ->
        Forall (fun followUpName => followUpName <> "") names ->
        rendering = String.concat " " names
        /\ rendering <> ""
        /\ (optional followUpList = false ->
            tokenCandidate candidate
            = [(name ++ " " ++ String.concat " " names)%string])
        /\ (optional followUpList = true ->
            tokenCandidate candidate
            = [name; (name ++ " " ++ String.concat " " names)%string]))
  /\ (forall tokens,
        tokenCompletions tokens
        = map (item Keyword) (flat_map tokenCandidate tokens)
        /\ Forall (fun i => kind i = Keyword) (tokenCompletions tokens)).
Proof.
  intros candidate rendering.
  split; [|split; [|split; [|split]]].
  - intros H; unfold candidate, tokenCandidate; now rewrite H.
  - intros name H; unfold candidate, tokenCandidate; rewrite H.
    fold (followUpString followUpList); fold rendering.
    split; [|split].
    + intros ->; reflexivity.
    + intros Hr Ho.
      apply String.eqb_neq in Hr; rewrite Hr, Ho; split; [reflexivity|].
      apply append_longer.
    + intros Hr Ho.
      apply String.eqb_neq in Hr; now rewrite Hr, Ho.
  - intros H; unfold rendering, followUpString; now rewrite H.
  - intros name names Hname H Hne Hall.
    assert (rendering = String.concat " " names) as E.
    { unfold rendering, followUpString, Js.join.
      rewrite H, map_map; f_equal.
      now rewrite map_id. }
    assert (rendering <> "") as Hr
      by (rewrite E; now apply concat_nonempty).
    split; [exact E|split; [exact Hr|]].
    unfold candidate, tokenCandidate; rewrite Hname.
    fold (followUpString followUpList); fold rendering.
    apply String.eqb_neq in Hr; rewrite Hr, <- E.
    split; intros ->; reflexivity.
  - intros tokens; split; [reflexivity|].
    unfold tokenCompletions; apply Forall_map, Forall_forall.
    reflexivity.
Qed.

(** *** The structural fallback resolver *)

(** With two tokens or more before the end marker, the last token and the
    end marker are there. *)
Lemma structural_tokens (toks : list Token) :
  0 < Js.length toks - 2 ->
  exists lastToken eof,
    Js.index toks (Js.length toks - 2) = Some lastToken
    /\ Js.index toks (Js.length toks - 2 + 1) = Some eof.
Proof.
  intros H.
  destruct (index_length_bound toks (Js.length toks - 2)) as [x Hx];
    [lia|].
  destruct (index_length_bound toks (Js.length toks - 2 + 1)) as [y Hy];
    [lia|].
  now exists x, y.
Qed.

(** Past the three checks, the resolver classifies the stop node. *)
Lemma autoCompleteStructurally_proceeds (parsingResult : ParsingResult)
  (lastToken eof : Token) :
  0 < Js.length (tokens parsingResult) - 2 ->
  Js.index (tokens parsingResult) (Js.length (tokens parsingResult) - 2 + 1)
  = Some eof ->
  text eof = "<EOF>" ->
  Js.index (tokens parsingResult) (Js.length (tokens parsingResult) - 2)
  = Some lastToken ->
  type lastToken <> CypherParser.SPACE ->
  autoCompleteStructurally parsingResult =
  let stopNode := findStopNode (result parsingResult) in
  if inRelationshipType stopNode then
    bind autocompleteRelTypes (fun items => ret (Some items))
  else
    match parentExpression stopNode with
    | Some expr =>
        bind (autoCompleteFunctions expr) (fun items => ret (Some items))
    | None =>
        if inProcedureName stopNode then
          bind autoCompleteProcNames (fun items => ret (Some items))
        else ret None
    end.
Proof.
  intros Hlen Heof Htext Hlast Htype.
  unfold autoCompleteStructurally; cbv zeta.
  apply Z.leb_gt in Hlen; rewrite Hlen, Heof, Hlast.
  unfold member, bind at 1, ret at 1; cbv beta iota.
  rewrite Htext, String.eqb_refl; unfold negb.
  unfold bind at 1, ret at 1; cbv beta iota.
  apply Z.eqb_neq in Htype; now rewrite Htype.
Qed.

(** C4 (amended): The structural fallback resolver degrades in this order:
    it returns the no-opinion sentinel ([undefined], not an empty list) when
    the token stream holds at most one token besides the end marker
    ([tokens.length - 2 <= 0]), in particular when it holds the end marker
    only, whatever the end marker's text; with two tokens or more before the
    end marker it returns an explicit empty list when the end marker's text
    is not ["<EOF>"]; and otherwise the no-opinion sentinel when the last
    token before the end marker is whitespace. *)
Theorem structural_degradation (parsingResult : ParsingResult)
  (db : DbInfo) :
  let lastTokenIndex := Js.length (tokens parsingResult) - 2 in
  (lastTokenIndex <= 0 ->
   autoCompleteStructurally parsingResult db = (Js.Returns None, db))
  /\ (forall eof,
        tokens parsingResult = [eof] ->
        autoCompleteStructurally parsingResult db = (Js.Returns None, db))
  /\ (forall eof,
        0 < lastTokenIndex ->
        Js.index (tokens parsingResult) (lastTokenIndex + 1) = Some eof ->
        text eof <> "<EOF>" ->
        autoCompleteStructurally parsingResult db = (Js.Returns (Some []), db))
  /\ (forall eof lastToken,
        0 < lastTokenIndex ->
        Js.index (tokens parsingResult) (lastTokenIndex + 1) = Some eof ->
        text eof = "<EOF>" ->
        Js.index (tokens parsingResult) lastTokenIndex = Some lastToken ->
        type lastToken = CypherParser.SPACE ->
        autoCompleteStructurally parsingResult db = (Js.Returns None, db)).
Proof.
  intros lastTokenIndex.
  assert (Hfew : lastTokenIndex <= 0 ->
                 autoCompleteStructurally parsingResult db
                 = (Js.Returns None, db)).
  { intros H; unfold autoCompleteStructurally; cbv zeta.
    fold lastTokenIndex; apply Z.leb_le in H; now rewrite H. }
  split; [exact Hfew|split; [|split]].
  - intros eof H; apply Hfew.
    unfold lastTokenIndex, Js.length; rewrite H; simpl; lia.
  - intros eof Hlen Heof Htext.
    unfold autoCompleteStructurally; cbv zeta; fold lastTokenIndex.
    apply Z.leb_gt in Hlen; rewrite Hlen, Heof.
    unfold member, bind, ret; cbv beta iota.
    apply String.eqb_neq in Htext; now rewrite Htext.
  - intros eof lastToken Hlen Heof Htext Hlast Htype.
    unfold autoCompleteStructurally; cbv zeta; fold lastTokenIndex.
    apply Z.leb_gt in Hlen; rewrite Hlen, Heof, Hlast.
    unfold member, bind, ret; cbv beta iota.
    rewrite Htext, String.eqb_refl; unfold negb.
    apply Z.eqb_eq in Htype; now rewrite Htype.
Qed.

(** C5: Past its degradation checks the structural fallback resolver
    classifies the stop node by ancestry, in this order: inside a
    relationship-type position it returns one [TypeParameter] item per
    relationship type; else, when the stop node has an enclosing expression,
    it returns [Function] items for exactly the names of the function catalog
    that start, character for character, with the text of that expression;
    else, inside a procedure-name position, one [Function] item per procedure
    name, unfiltered; else the no-opinion sentinel. *)
Theorem structural_classification (parsingResult : ParsingResult)
  (db : DbInfo) (lastToken eof : Token) :
  0 < Js.length (tokens parsingResult) - 2 ->
  Js.index (tokens parsingResult) (Js.length (tokens parsingResult) - 2 + 1)
  = Some eof ->
  text eof = "<EOF>" ->
  Js.index (tokens parsingResult) (Js.length (tokens parsingResult) - 2)
  = Some lastToken ->
  type lastToken <> CypherParser.SPACE ->
  let stopNode := findStopNode (result parsingResult) in
  (inRelationshipType stopNode = true ->
   forall rs,
     relationshipTypes db = Some rs ->
     autoCompleteStructurally parsingResult db
     = (Js.Returns (Some (map (item TypeParameter) rs)), db))
  /\ (inRelationshipType stopNode = false ->
      forall expr fs,
        parentExpression stopNode = Some expr ->
        functionSignatures db = Some fs ->
        autoCompleteStructurally parsingResult db
        = (Js.Returns
             (Some (map (item Function)
                      (filter (fun name => Js.startsWith name (getText expr))
                         (Js.keys fs)))), db)
        /\ forall name,
             In name
               (filter (fun name => Js.startsWith name (getText expr))
                  (Js.keys fs))
             <-> In name (Js.keys fs)
                 /\ exists rest, name = (getText expr ++ rest)%string)
  /\ (inRelationshipType stopNode = false ->
      parentExpression stopNode = None ->
      inProcedureName stopNode = true ->
      forall ps,
        procedureSignatures db = Some ps ->
        autoCompleteStructurally parsingResult db
        = (Js.Returns (Some (map (item Function) (Js.keys ps))), db))
  /\ (inRelationshipType stopNode = false ->
      parentExpression stopNode = None ->
      inProcedureName stopNode = false ->
      autoCompleteStructurally parsingResult db = (Js.Returns None, db)).
Proof.
  intros Hlen Heof Htext Hlast Htype stopNode.
  rewrite (autoCompleteStructurally_proceeds _ _ _ Hlen Heof Htext Hlast Htype).
  cbv zeta; fold stopNode.
  split; [|split; [|split]].
  - intros -> rs Hrs.
    unfold bind, autocompleteRelTypes, bind, prop, member, ret.
    now rewrite Hrs.
  - intros -> expr fs -> Hfs; split.
    + unfold bind, autoCompleteFunctions, bind, prop, member, ret.
      now rewrite Hfs.
    + intros name; rewrite filter_In, startsWith_spec; reflexivity.
  - intros -> -> -> ps Hps.
    unfold bind, autoCompleteProcNames, bind, prop, member, ret.
    now rewrite Hps.
  - intros -> -> ->; reflexivity.
Qed.

(** C10: When the token stream holds at most one token besides the end
    marker ([tokens.length - 2 <= 0]), both structural resolvers return the
    no-opinion sentinel: whatever the tokens are, so neither the end marker's
    text nor the type of the last token is looked at, and whatever the schema
    holds. *)
Theorem short_stream_no_opinion (parsingResult : ParsingResult)
  (textUntilPosition : string) (db : DbInfo) :
  (Js.length (tokens parsingResult) - 2 <= 0 ->
   autoCompleteStructurally parsingResult db = (Js.Returns None, db))
  /\ (Js.length (tokens (parserWrapper.parse (textUntilPosition ++ "x")%string))
      - 2 <= 0 ->
      autoCompleteStructurallyAddingChar textUntilPosition db
      = (Js.Returns None, db)).
Proof.
  split; intros H; apply Z.leb_le in H.
  - unfold autoCompleteStructurally; cbv zeta; now rewrite H.
  - unfold autoCompleteStructurallyAddingChar; cbv zeta; now rewrite H.
Qed.

(** *** The order and the kinds of the items *)

(** What a candidate rule can contribute: nothing, one of the three lists
    the callback closes over, the relationship types followed by the labels,
    or [Value] items. *)
Lemma contribution_cases (parsingResult : ParsingResult)
  (lc rc pc : list CompletionItem) (db : DbInfo)
  (candidate : Z * CandidateRule) :
  contribution parsingResult lc rc pc db candidate = []
  \/ contribution parsingResult lc rc pc db candidate = pc
  \/ contribution parsingResult lc rc pc db candidate = rc
  \/ contribution parsingResult lc rc pc db candidate = lc
  \/ contribution parsingResult lc rc pc db candidate = rc ++ lc
  \/ Forall (fun i => kind i = Value)
       (contribution parsingResult lc rc pc db candidate).
Proof.
  destruct candidate as [ruleNumber candidateRule].
  unfold contribution, ruleCandidate.
  repeat match goal with
         | |- context [if ?b then _ else _] => destruct b
         end;
    unfold bind, prop, member, ret, throw; cbv beta iota;
    repeat match goal with
           | |- context [match ?o with Some _ => _ | None => _ end] =>
               destruct o; cbv beta iota
           end;
    cbn [fst]; auto 7;
    do 5 right; apply Forall_map, Forall_forall; reflexivity.
Qed.

Lemma contribution_kinds (parsingResult : ParsingResult)
  (ls rs ps : list string) (db : DbInfo) (candidate : Z * CandidateRule) :
  Forall
    (fun i => kind i = Function \/ kind i = TypeParameter \/ kind i = Value)
    (contribution parsingResult (map (item TypeParameter) ls)
       (map (item TypeParameter) rs) (map (item Function) ps) db candidate).
Proof.
  assert (Hl : Forall
                 (fun i => kind i = Function \/ kind i = TypeParameter
                           \/ kind i = Value)
                 (map (item TypeParameter) ls))
    by (apply Forall_map, Forall_forall; auto).
  assert (Hr : Forall
                 (fun i => kind i = Function \/ kind i = TypeParameter
                           \/ kind i = Value)
                 (map (item TypeParameter) rs))
    by (apply Forall_map, Forall_forall; auto).
  assert (Hp : Forall
                 (fun i => kind i = Function \/ kind i = TypeParameter
                           \/ kind i = Value)
                 (map (item Function) ps))
    by (apply Forall_map, Forall_forall; auto).
  destruct (contribution_cases parsingResult (map (item TypeParameter) ls)
              (map (item TypeParameter) rs) (map (item Function) ps) db
              candidate) as [E|[E|[E|[E|[E|E]]]]];
    try (rewrite E; auto using Forall_app; fail).
  - rewrite E; apply Forall_app; auto.
  - eapply Forall_impl; [|exact E]; simpl; auto.
Qed.

Lemma flatMap_ext {A B : Type} (f g : A -> M (option (list B)))
  (a : list A) :
  (forall x, f x = g x) -> flatMap f a = flatMap g a.
Proof.
  intros H; induction a as [|x a IH]; simpl; [reflexivity|].
  now rewrite H, IH.
Qed.

(** The callback looks at the types of the tokens, never at their text. *)
Lemma ruleCandidate_token_types (parsingResult parsingResult' : ParsingResult)
  (lc rc pc : list CompletionItem) (candidate : Z * CandidateRule) :
  map type (tokens parsingResult') = map type (tokens parsingResult) ->
  ruleCandidate parsingResult' lc rc pc candidate
  = ruleCandidate parsingResult lc rc pc candidate.
Proof.
  intros H; destruct candidate as [ruleNumber candidateRule].
  unfold ruleCandidate.
  pose proof (index_map type (tokens parsingResult')
                (startTokenIndex candidateRule + 1)) as E'.
  pose proof (index_map type (tokens parsingResult)
                (startTokenIndex candidateRule + 1)) as E.
  rewrite H, E in E'.
  destruct (Js.index (tokens parsingResult') _) as [next'|],
    (Js.index (tokens parsingResult) _) as [next|];
    simpl in E'; try discriminate; [|reflexivity].
  injection E' as E'; now rewrite E'.
Qed.

Lemma completionCoreCompletion_token_types
  (parsingResult parsingResult' : ParsingResult) (db : DbInfo) :
  parser parsingResult' = parser parsingResult ->
  map type (tokens parsingResult') = map type (tokens parsingResult) ->
  completionCoreCompletion parsingResult' db
  = completionCoreCompletion parsingResult db.
Proof.
  intros Hp Ht.
  assert (Hc : candidatesAt parsingResult' = candidatesAt parsingResult).
  { unfold candidatesAt, caretIndex, Js.length.
    rewrite Hp, <- (length_map type (tokens parsingResult')), Ht, length_map.
    reflexivity. }
  rewrite !completionCoreCompletion_unfold, Hc.
  unfold ruleCompletions.
  repeat match goal with
         | |- context [match ?o with Some _ => _ | None => _ end] =>
             destruct o; try reflexivity
         end.
  erewrite flatMap_ext; [reflexivity|].
  intros x; now apply ruleCandidate_token_types.
Qed.

(** C6: In the sequence [completionCoreCompletion] returns, the items that
    come from candidate rules (kinds [Function], [TypeParameter], [Value])
    all stand before the items that come from candidate tokens (kind
    [Keyword]): the result is the contributions of the candidate rules in
    their order, each in full, followed by one [Keyword] item per token
    label, nothing removed and nothing merged, and it does not depend on the
    text of the tokens the user typed. *)
Theorem rule_items_before_keyword_items (parsingResult : ParsingResult)
  (db : DbInfo) :
  (allPresent db = true ->
   exists items,
     completionCoreCompletion parsingResult db = (Js.Returns items, db))
  /\ (forall items,
        fst (completionCoreCompletion parsingResult db) = Js.Returns items ->
        exists ls rs ps ruleItems tokenItems,
          labels db = Some ls /\ relationshipTypes db = Some rs
          /\ procedureSignatures db = Some ps
          /\ items = ruleItems ++ tokenItems
          /\ ruleItems =
             flat_map
               (contribution parsingResult (map (item TypeParameter) ls)
                  (map (item TypeParameter) rs)
                  (map (item Function) (Js.keys ps)) db)
               (CandidatesCollection.rules (candidatesAt parsingResult))
          /\ tokenItems =
             map (item Keyword)
               (flat_map tokenCandidate
                  (CandidatesCollection.tokens (candidatesAt parsingResult)))
          /\ Forall
               (fun i => kind i = Function \/ kind i = TypeParameter
                         \/ kind i = Value) ruleItems
          /\ Forall (fun i => kind i = Keyword) tokenItems)
  /\ (forall parsingResult',
        parser parsingResult' = parser parsingResult ->
        map type (tokens parsingResult') = map type (tokens parsingResult) ->
        completionCoreCompletion parsingResult' db
        = completionCoreCompletion parsingResult db).
Proof.
  split; [apply completionCoreCompletion_returns|split].
  - intros items H.
    destruct (completionCoreCompletion_items _ _ _ H)
      as (ls & rs & ps & fs & Hl & Hr & Hp & _ & ->).
    exists ls, rs, ps; do 2 eexists.
    repeat (split; [first [assumption | reflexivity]|]).
    split.
    + apply Forall_forall; intros i Hi.
      apply in_flat_map in Hi; destruct Hi as (candidate & _ & Hi).
      pose proof (contribution_kinds parsingResult ls rs (Js.keys ps) db
                    candidate) as Hk.
      rewrite Forall_forall in Hk; now apply Hk.
    + apply Forall_map, Forall_forall; reflexivity.
  - intros parsingResult' Hp Ht.
    now apply completionCoreCompletion_token_types.
Qed.

(** *** Labels are not filtered by what was typed *)

Lemma keyword_filter_rule_items (items : list CompletionItem) :
  Forall
    (fun i => kind i = Function \/ kind i = TypeParameter \/ kind i = Value)
    items ->
  filter isKeywordItem items = [].
Proof.
  induction 1 as [|i items Hi _ IH]; simpl; [reflexivity|].
  unfold isKeywordItem at 1.
  destruct Hi as [-> |[-> | ->]]; exact IH.
Qed.

Lemma keyword_filter_token_items (labels : list string) :
  filter isKeywordItem (map (item Keyword) labels) = map (item Keyword) labels.
Proof.
  induction labels as [|l labels IH]; simpl; [reflexivity|].
  now rewrite IH.
Qed.

(** C7 (amended): With schema labels Cat, Person and Dog (and the other
    catalogs present), completing a document (["MATCH (n:P"] included)
    through [completionCoreCompletion] does not filter the labels by the
    text typed: for a label-name candidate
    inside a node pattern the result holds the [TypeParameter] items Cat,
    Person and Dog, in that order; whenever the [TypeParameter] item Person
    is in the result, either the items Cat and Dog are there too or Person is
    also a relationship type, so that, Person not being a relationship type,
    the [TypeParameter] items of the result are never Person alone.  The
    [Keyword] items are those of the candidate tokens: no label gives one. *)
Theorem labels_are_not_prefix_filtered (parsingResult : ParsingResult)
  (db : DbInfo) :
  labels db = Some ["Cat"; "Person"; "Dog"] ->
  allPresent db = true ->
  exists items,
    completionCoreCompletion parsingResult db = (Js.Returns items, db)
    /\ (forall ruleNumber candidateRule pre post,
          CandidatesCollection.rules (candidatesAt parsingResult)
          = pre ++ (ruleNumber, candidateRule) :: post ->
          ruleNumber = CypherParser.RULE_unescapedSymbolicNameString
          \/ ruleNumber = CypherParser.RULE_symbolicLabelNameString ->
          Js.includes (ruleList candidateRule) CypherParser.RULE_procedureName
          = false ->
          Js.includes (ruleList candidateRule) CypherParser.RULE_functionName
          = false ->
          Js.includes (ruleList candidateRule)
            CypherParser.RULE_relationshipPattern = false ->
          Js.includes (ruleList candidateRule) CypherParser.RULE_nodePattern
          = true ->
          exists before after,
            items =
            before
            ++ [ item TypeParameter "Cat"; item TypeParameter "Person";
                 item TypeParameter "Dog" ]
            ++ after)
    /\ (forall rs,
          relationshipTypes db = Some rs ->
          In (item TypeParameter "Person") items ->
          (In (item TypeParameter "Cat") items
           /\ In (item TypeParameter "Dog") items)
          \/ In "Person" rs)
    /\ (forall rs,
          relationshipTypes db = Some rs ->
          ~ In "Person" rs ->
          filter isTypeParameterItem items <> [item TypeParameter "Person"])
    /\ filter isKeywordItem items
       = tokenCompletions
           (CandidatesCollection.tokens (candidatesAt parsingResult)).
Proof.
  intros Hlabels Hall.
  destruct (completionCoreCompletion_returns parsingResult db Hall)
    as [items Hrun].
  exists items; split; [exact Hrun|].
  assert (Hfst : fst (completionCoreCompletion parsingResult db)
                 = Js.Returns items) by now rewrite Hrun.
  destruct (completionCoreCompletion_items _ _ _ Hfst)
    as (ls & rs & ps & fs & Hl & Hr & Hp & _ & Hitems).
  rewrite Hlabels in Hl; injection Hl as <-.
  set (c := contribution parsingResult
              (map (item TypeParameter) ["Cat"; "Person"; "Dog"])
              (map (item TypeParameter) rs)
              (map (item Function) (Js.keys ps)) db) in *.
  assert (Hperson : In (item TypeParameter "Person") items ->
                    (In (item TypeParameter "Cat") items
                     /\ In (item TypeParameter "Dog") items)
                    \/ In "Person" rs).
  { rewrite Hitems; intros Hin.
    apply in_app_or in Hin; destruct Hin as [Hin|Hin].
    - apply in_flat_map in Hin; destruct Hin as (candidate & Hcand & Hin).
      assert (Hfrom : forall x, In x (c candidate) ->
                      In x (flat_map c
                              (CandidatesCollection.rules
                                 (candidatesAt parsingResult))
                            ++ tokenCompletions
                                 (CandidatesCollection.tokens
                                    (candidatesAt parsingResult))))
        by (intros x Hx; apply in_or_app; left; apply in_flat_map; eauto).
      destruct (contribution_cases parsingResult
                  (map (item TypeParameter) ["Cat"; "Person"; "Dog"])
                  (map (item TypeParameter) rs)
                  (map (item Function) (Js.keys ps)) db candidate)
        as [E|[E|[E|[E|[E|E]]]]]; fold c in E.
      + rewrite E in Hin; contradiction.
      + rewrite E in Hin; apply in_map_iff in Hin.
        destruct Hin as (n & Hn & _); discriminate.
      + rewrite E in Hin; apply in_map_iff in Hin.
        destruct Hin as (n & Hn & Hrs); injection Hn as ->; now right.
      + left; split; apply Hfrom; rewrite E; simpl; auto.
      + rewrite E in Hin; apply in_app_or in Hin; destruct Hin as [Hin|Hin].
        * apply in_map_iff in Hin.
          destruct Hin as (n & Hn & Hrs); injection Hn as ->; now right.
        * left; split; apply Hfrom; rewrite E; apply in_or_app; right;
            simpl; auto.
      + rewrite Forall_forall in E; specialize (E _ Hin); discriminate.
    - unfold tokenCompletions in Hin; apply in_map_iff in Hin.
      destruct Hin as (n & Hn & _); discriminate. }
  split; [|split; [|split]].
  - intros ruleNumber candidateRule pre post Hrules Hrule Hproc Hfun Hrel Hnode.
    destruct (completionCoreCompletion_segment _ _ _ _ _ _ Hfst Hrules)
      as (ls' & rs' & ps' & Hl' & Hr' & Hp' & Hseg).
    rewrite Hlabels in Hl'; injection Hl' as <-.
    rewrite Hr in Hr'; injection Hr' as <-.
    rewrite Hp in Hp'; injection Hp' as <-.
    fold c in Hseg.
    assert (c (ruleNumber, candidateRule)
            = map (item TypeParameter) ["Cat"; "Person"; "Dog"]) as E.
    { unfold c, contribution, ruleCandidate.
      assert ((ruleNumber =? CypherParser.RULE_unescapedSymbolicNameString)
              || (ruleNumber =? CypherParser.RULE_symbolicLabelNameString)
              = true) as ->.
      { apply orb_true_iff; destruct Hrule as [->| ->];
          [left | right]; apply Z.eqb_refl. }
      now rewrite Hproc, Hfun, Hrel, Hnode. }
    rewrite E in Hseg; simpl in Hseg.
    eexists; eexists; exact Hseg.
  - intros rs' Hr'; rewrite Hr in Hr'; injection Hr' as <-; exact Hperson.
  - intros rs' Hr' Hnot Hfilter.
    rewrite Hr in Hr'; injection Hr' as <-.
    assert (Hin : In (item TypeParameter "Person") items).
    { apply (proj1 (filter_In isTypeParameterItem _ items)).
      rewrite Hfilter; simpl; auto. }
    destruct (Hperson Hin) as [[Hcat _]|Habs]; [|now apply Hnot].
    assert (In (item TypeParameter "Cat") (filter isTypeParameterItem items))
      as Hcat' by (apply filter_In; split; [exact Hcat | reflexivity]).
    rewrite Hfilter in Hcat'; simpl in Hcat'.
    destruct Hcat' as [Habs|[]]; discriminate.
  - rewrite Hitems, filter_app, keyword_filter_rule_items.
    + apply keyword_filter_token_items.
    + apply Forall_forall; intros i Hi.
      apply in_flat_map in Hi; destruct Hi as (candidate & _ & Hi).
      pose proof (contribution_kinds parsingResult ["Cat"; "Person"; "Dog"]
                    rs (Js.keys ps) db candidate) as Hk.
      rewrite Forall_forall in Hk; now apply Hk.
Qed.

(** *** Absent catalogs, and purity *)

Lemma readOnly_autocompleteLabels : readOnly autocompleteLabels.
Proof. unfold autocompleteLabels; auto 10 with readonly. Qed.

Lemma autoCompleteStructurally_returns (parsingResult : ParsingResult)
  (db : DbInfo) :
  allPresent db = true ->
  exists r, autoCompleteStructurally parsingResult db = (Js.Returns r, db).
Proof.
  intros H.
  destruct (allPresent_fields db H)
    as (ls & rs & ps & fs & ds & als & Hl & Hr & Hp & Hf & Hd & Ha).
  unfold autoCompleteStructurally; cbv zeta.
  destruct (Js.length (tokens parsingResult) - 2 <=? 0) eqn:Hlen;
    [now eexists|].
  apply Z.leb_gt in Hlen.
  destruct (structural_tokens _ Hlen) as (lastToken & eof & -> & ->).
  unfold member, bind at 1, ret at 1; cbv beta iota.
  destruct (negb (text eof =? "<EOF>")%string); [now eexists|].
  unfold bind at 1, ret at 1; cbv beta iota.
  destruct (type lastToken =? CypherParser.SPACE); [now eexists|].
  destruct (inRelationshipType _).
  { unfold bind, autocompleteRelTypes, bind, prop, member, ret.
    rewrite Hr; now eexists. }
  destruct (parentExpression _) as [expr|].
  { unfold bind, autoCompleteFunctions, bind, prop, member, ret.
    rewrite Hf; now eexists. }
  destruct (inProcedureName _); [|now eexists].
  unfold bind, autoCompleteProcNames, bind, prop, member, ret.
  rewrite Hp; now eexists.
Qed.

Lemma autoCompleteStructurallyAddingChar_returns (textUntilPosition : string)
  (db : DbInfo) :
  allPresent db = true ->
  exists r,
    autoCompleteStructurallyAddingChar textUntilPosition db
    = (Js.Returns r, db).
Proof.
  intros H.
  destruct (allPresent_fields db H)
    as (ls & rs & ps & fs & ds & als & Hl & Hr & Hp & Hf & Hd & Ha).
  unfold autoCompleteStructurallyAddingChar; cbv zeta.
  set (parsingResult := parserWrapper.parse _).
  destruct (Js.length (tokens parsingResult) - 2 <=? 0) eqn:Hlen;
    [now eexists|].
  apply Z.leb_gt in Hlen.
  destruct (structural_tokens _ Hlen) as (lastToken & eof & -> & _).
  unfold member, bind at 1, ret at 1; cbv beta iota.
  destruct (type lastToken =? CypherParser.SPACE); [now eexists|].
  destruct (inRelationshipType _); [|now eexists].
  unfold bind, autocompleteRelTypes, bind, prop, member, ret.
  rewrite Hr; now eexists.
Qed.

(** C8 (amended): On a schema snapshot whose six catalog fields are all
    present, each possibly empty, every completion operation returns without
    dereferencing [undefined]; and no completion operation ever changes the
    snapshot, whether it returns or throws. *)
Theorem present_catalogs_are_read_safely (parsingResult : ParsingResult)
  (textUntilPosition : string) (expr : ParserRuleContext) (db : DbInfo) :
  (allPresent db = true ->
   (exists items,
      completionCoreCompletion parsingResult db = (Js.Returns items, db))
   /\ (exists r,
         autoCompleteStructurally parsingResult db = (Js.Returns r, db))
   /\ (exists r,
         autoCompleteStructurallyAddingChar textUntilPosition db
         = (Js.Returns r, db))
   /\ (exists items, autocompleteLabels db = (Js.Returns items, db))
   /\ (exists items, autocompleteRelTypes db = (Js.Returns items, db))
   /\ (exists items, autoCompleteFunctions expr db = (Js.Returns items, db))
   /\ (exists items, autoCompleteProcNames db = (Js.Returns items, db)))
  /\ snd (completionCoreCompletion parsingResult db) = db
  /\ snd (autoCompleteStructurally parsingResult db) = db
  /\ snd (autoCompleteStructurallyAddingChar textUntilPosition db) = db
  /\ snd (autocompleteLabels db) = db
  /\ snd (autocompleteRelTypes db) = db
  /\ snd (autoCompleteFunctions expr db) = db
  /\ snd (autoCompleteProcNames db) = db.
Proof.
  split.
  - intros H.
    destruct (allPresent_fields db H)
      as (ls & rs & ps & fs & ds & als & Hl & Hr & Hp & Hf & Hd & Ha).
    split; [now apply completionCoreCompletion_returns|].
    split; [now apply autoCompleteStructurally_returns|].
    split; [now apply autoCompleteStructurallyAddingChar_returns|].
    unfold autocompleteLabels, autocompleteRelTypes, autoCompleteFunctions,
      autoCompleteProcNames, bind, prop, member, ret.
    rewrite Hl, Hr, Hp, Hf; repeat split; now eexists.
  - repeat split.
    + apply readOnly_completionCoreCompletion.
    + apply readOnly_autoCompleteStructurally.
    + apply readOnly_autoCompleteStructurallyAddingChar.
    + apply readOnly_autocompleteLabels.
    + apply readOnly_autocompleteRelTypes.
    + apply readOnly_autoCompleteFunctions.
    + apply readOnly_autoCompleteProcNames.
Qed.

End Properties.

(** ** Further properties of the completion code *)

Section CompletionProperties.

Context {lexer : CypherLexer.Constants} {grammar : CypherParser.Constants}.
Context {symbols : LexerSymbols}.
Context {tree : ParseTree} {collector : CandidateCollector}.
Context {wrapper : parserWrapper.Provider}.

(** The callback on a name candidate outside procedure and function
    names. *)
Lemma ruleCandidate_pattern_name (parsingResult : ParsingResult)
  (lc rc pc : list CompletionItem) (ruleNumber : Z)
  (candidateRule : CandidateRule) :
  ruleNumber = CypherParser.RULE_unescapedSymbolicNameString
  \/ ruleNumber = CypherParser.RULE_symbolicLabelNameString ->
  Js.includes (ruleList candidateRule) CypherParser.RULE_procedureName
  = false ->
  Js.includes (ruleList candidateRule) CypherParser.RULE_functionName
  = false ->
  ruleCandidate parsingResult lc rc pc (ruleNumber, candidateRule) =
  if Js.includes (ruleList candidateRule) CypherParser.RULE_relationshipPattern
  then ret (Some rc)
  else if Js.includes (ruleList candidateRule) CypherParser.RULE_nodePattern
  then ret (Some lc)
  else if Js.includes (ruleList candidateRule)
            CypherParser.RULE_labelExpression
  then ret (Some (rc ++ lc))
  else ret None.
Proof.
  intros Hrule Hproc Hfun; unfold ruleCandidate.
  assert ((ruleNumber =? CypherParser.RULE_unescapedSymbolicNameString)
          || (ruleNumber =? CypherParser.RULE_symbolicLabelNameString)
          = true) as ->.
  { apply orb_true_iff; destruct Hrule as [->| ->];
      [left | right]; apply Z.eqb_refl. }
  now rewrite Hproc, Hfun.
Qed.

(** X1: A name candidate (unescaped symbolic name or label name) whose rule
    stack holds neither the procedure-name nor the function-name rule is
    classified by the first of these that its stack holds: the relationship
    pattern gives one [TypeParameter] item per relationship type, also when
    the node pattern is in the stack too; the node pattern gives one per
    label; the label expression gives the relationship types followed by the
    labels; a stack with none of them gives nothing. *)
Theorem name_candidate_pattern_dispatch (parsingResult : ParsingResult)
  (ruleNumber : Z) (candidateRule : CandidateRule)
  (ls rs : list string) (pc : list CompletionItem) (db : DbInfo) :
  ruleNumber = CypherParser.RULE_unescapedSymbolicNameString
  \/ ruleNumber = CypherParser.RULE_symbolicLabelNameString ->
  Js.includes (ruleList candidateRule) CypherParser.RULE_procedureName
  = false ->
  Js.includes (ruleList candidateRule) CypherParser.RULE_functionName
  = false ->
  let inRelationship :=
    Js.includes (ruleList candidateRule)
      CypherParser.RULE_relationshipPattern in
  let inNode :=
    Js.includes (ruleList candidateRule) CypherParser.RULE_nodePattern in
  let inLabelExpression :=
    Js.includes (ruleList candidateRule) CypherParser.RULE_labelExpression in
  let items :=
    contribution parsingResult (map (item TypeParameter) ls)
      (map (item TypeParameter) rs) pc db (ruleNumber, candidateRule) in
  (inRelationship = true -> items = map (item TypeParameter) rs)
  /\ (inRelationship = false -> inNode = true ->
      items = map (item TypeParameter) ls)
  /\ (inRelationship = false -> inNode = false -> inLabelExpression = true ->
      items = map (item TypeParameter) (rs ++ ls))
  /\ (inRelationship = false -> inNode = false -> inLabelExpression = false ->
      items = []).
Proof.
  intros Hrule Hproc Hfun inRelationship inNode inLabelExpression items.
  unfold items, contribution.
  rewrite (ruleCandidate_pattern_name _ _ _ _ _ _ Hrule Hproc Hfun).
  fold inRelationship inNode inLabelExpression.
  split; [|split; [|split]].
  - now intros ->.
  - now intros -> ->.
  - intros -> -> ->; simpl; now rewrite map_app.
  - now intros -> -> ->.
Qed.

(** [flatMap] over two arrays, one after the other. *)
Lemma flatMap_app {A B : Type} (f : A -> M (option (list B)))
  (a b : list A) (db : DbInfo) :
  flatMap f (a ++ b) db =
  bind (flatMap f a)
    (fun r1 => bind (flatMap f b) (fun r2 => ret (r1 ++ r2))) db.
Proof.
  revert db; induction a as [|x a IH]; intros db; simpl.
  - unfold bind, ret.
    destruct (flatMap f b db) as [[r|e] db']; reflexivity.
  - unfold bind at 1 3 4.
    destruct (f x db) as [[o|e] db1]; [|reflexivity].
    unfold bind at 1; rewrite IH; unfold bind, ret.
    destruct (flatMap f a db1) as [[r1|e] db2]; [|reflexivity].
    destruct (flatMap f b db2) as [[r2|e] db3]; [|reflexivity].
    now rewrite app_assoc.
Qed.

(** X2: A candidate whose rule is none of the three the classifier knows
    (the unescaped symbolic name, the label name, the alias name), such as
    the preferred rules for escaped names and string literals, contributes
    nothing: its callback returns [null] on every snapshot, and the rule
    items are what they are without the candidate. *)
Theorem unknown_rule_contributes_nothing (parsingResult : ParsingResult)
  (ruleNumber : Z) (candidateRule : CandidateRule) :
  ruleNumber <> CypherParser.RULE_unescapedSymbolicNameString ->
  ruleNumber <> CypherParser.RULE_symbolicLabelNameString ->
  ruleNumber <> CypherParser.RULE_symbolicAliasName ->
  forall lc rc pc db,
    ruleCandidate parsingResult lc rc pc (ruleNumber, candidateRule) db
    = (Js.Returns None, db)
    /\ forall pre post,
         ruleCompletions parsingResult lc rc pc
           (pre ++ (ruleNumber, candidateRule) :: post) db
         = ruleCompletions parsingResult lc rc pc (pre ++ post) db.
Proof.
  intros H1 H2 H3 lc rc pc db.
  assert (Hcb : ruleCandidate parsingResult lc rc pc
                  (ruleNumber, candidateRule) = ret None).
  { unfold ruleCandidate.
    apply Z.eqb_neq in H1, H2, H3; now rewrite H1, H2, H3. }
  split; [now rewrite Hcb|].
  intros pre post.
  unfold ruleCompletions, Js.entries, bind.
  rewrite !flatMap_app; unfold bind, ret.
  destruct (flatMap _ pre db) as [[r1|e] db1]; [|reflexivity].
  cbn [flatMap]; rewrite Hcb; unfold bind, ret.
  destruct (flatMap _ post db1) as [[r2|e] db2]; [|reflexivity].
  simpl; now rewrite !filterNotNull_app.
Qed.

(** X3: [completionCoreCompletion] reads the label, relationship-type,
    procedure and function catalogs before it looks at any candidate: when
    one of the four is absent it throws a [TypeError], whatever the
    candidates are, and leaves the snapshot as it was.  This holds for the
    function catalog too, although no item is ever made from it. *)
Theorem absent_catalog_throws (parsingResult : ParsingResult) (db : DbInfo) :
  labels db = None \/ relationshipTypes db = None
  \/ procedureSignatures db = None \/ functionSignatures db = None ->
  completionCoreCompletion parsingResult db = (Js.Throws Js.TypeError, db).
Proof.
  intros H; rewrite completionCoreCompletion_unfold.
  destruct (labels db); [|reflexivity].
  destruct (relationshipTypes db); [|reflexivity].
  destruct (procedureSignatures db); [|reflexivity].
  destruct (functionSignatures db); [|reflexivity].
  destruct H as [H|[H|[H|H]]]; discriminate.
Qed.

(** A candidate that never reaches the reads of the database and alias
    names: its callback returns the same value on every snapshot. *)
Lemma ruleCandidate_without_names (parsingResult : ParsingResult)
  (lc rc pc : list CompletionItem) (candidate : Z * CandidateRule) :
  fst candidate <> CypherParser.RULE_symbolicAliasName
  \/ match Js.index (tokens parsingResult)
             (startTokenIndex (snd candidate) + 1) with
     | Some next => type next =? CypherLexer.SPACE
     | None => false
     end = true
  \/ Js.some rulesCreatingNewAliasOrDb
       (fun rule => Js.includes (ruleList (snd candidate)) rule) = true ->
  exists o, forall db,
    ruleCandidate parsingResult lc rc pc candidate db = (Js.Returns o, db).
Proof.
  destruct candidate as [ruleNumber candidateRule]; simpl; intros H.
  unfold ruleCandidate.
  destruct ((ruleNumber =? CypherParser.RULE_unescapedSymbolicNameString)
            || (ruleNumber =? CypherParser.RULE_symbolicLabelNameString)).
  { repeat match goal with
           | |- context [if ?b then _ else _] => destruct b
           end; eexists; intros db; reflexivity. }
  destruct (ruleNumber =? CypherParser.RULE_symbolicAliasName) eqn:E;
    [|eexists; intros db; reflexivity].
  apply Z.eqb_eq in E.
  destruct H as [H|[H|H]]; [contradiction| |].
  - rewrite H; eexists; intros db; reflexivity.
  - rewrite H.
    destruct (match Js.index _ _ with Some _ => _ | None => _ end);
      eexists; intros db; reflexivity.
Qed.

(** X4: The database names and the alias names are read on demand only:
    with the four other catalogs present, [completionCoreCompletion] returns
    on a snapshot that lacks both, as long as every candidate for the alias
    name rule is followed by a whitespace token or stands under a creation
    rule (in particular when there is no such candidate). *)
Theorem names_are_read_on_demand (parsingResult : ParsingResult)
  (db : DbInfo) :
  isDefined (labels db) = true ->
  isDefined (relationshipTypes db) = true ->
  isDefined (procedureSignatures db) = true ->
  isDefined (functionSignatures db) = true ->
  Forall
    (fun candidate =>
       fst candidate <> CypherParser.RULE_symbolicAliasName
       \/ match Js.index (tokens parsingResult)
                  (startTokenIndex (snd candidate) + 1) with
          | Some next => type next =? CypherLexer.SPACE
          | None => false
          end = true
       \/ Js.some rulesCreatingNewAliasOrDb
            (fun rule => Js.includes (ruleList (snd candidate)) rule) = true)
    (CandidatesCollection.rules (candidatesAt parsingResult)) ->
  exists items,
    completionCoreCompletion parsingResult db = (Js.Returns items, db).
Proof.
  intros Hl Hr Hp Hf Hall.
  rewrite completionCoreCompletion_unfold.
  destruct (labels db) as [ls|]; [|discriminate].
  destruct (relationshipTypes db) as [rs|]; [|discriminate].
  destruct (procedureSignatures db) as [ps|]; [|discriminate].
  destruct (functionSignatures db) as [fs|]; [|discriminate].
  set (f := ruleCandidate parsingResult (map (item TypeParameter) ls)
              (map (item TypeParameter) rs)
              (map (item Function) (Js.keys ps))).
  assert (Hflat : exists r,
             flatMap f
               (CandidatesCollection.rules (candidatesAt parsingResult)) db
             = (Js.Returns r, db)).
  { induction Hall as [|candidate rules Hc _ IH]; simpl.
    - now exists [].
    - destruct (ruleCandidate_without_names parsingResult
                  (map (item TypeParameter) ls) (map (item TypeParameter) rs)
                  (map (item Function) (Js.keys ps)) candidate Hc) as [o Ho].
      destruct IH as [more IH].
      exists (Js.flatten o ++ more).
      unfold bind, f; rewrite Ho; fold f; now rewrite IH. }
  destruct Hflat as [r Hflat].
  eexists; unfold ruleCompletions, Js.entries, bind; fold f.
  rewrite Hflat; reflexivity.
Qed.

(** X5: When an alias-name candidate does reach the name catalogs, an
    absent catalog shows: under an alias-only rule absent alias names throw a
    [TypeError]; elsewhere absent database names throw a [TypeError], while
    absent alias names with database names present do not: the candidate
    then gives one [Value] item per database name and one more whose label is
    [undefined]. *)
Theorem alias_candidate_on_absent_names (parsingResult : ParsingResult)
  (candidateRule : CandidateRule) (lc rc pc : list CompletionItem)
  (db : DbInfo) :
  CypherParser.RULE_symbolicAliasName
    <> CypherParser.RULE_unescapedSymbolicNameString ->
  CypherParser.RULE_symbolicAliasName
    <> CypherParser.RULE_symbolicLabelNameString ->
  match Js.index (tokens parsingResult)
          (startTokenIndex candidateRule + 1) with
  | Some next => type next =? CypherLexer.SPACE
  | None => false
  end = false ->
  Js.some rulesCreatingNewAliasOrDb
    (fun rule => Js.includes (ruleList candidateRule) rule) = false ->
  let candidate := (CypherParser.RULE_symbolicAliasName, candidateRule) in
  let aliasOnly :=
    Js.some rulesThatOnlyAcceptAlias
      (fun rule => Js.includes (ruleList candidateRule) rule) in
  (aliasOnly = true -> aliasNames db = None ->
   ruleCandidate parsingResult lc rc pc candidate db
   = (Js.Throws Js.TypeError, db))
  /\ (aliasOnly = false -> databaseNames db = None ->
      ruleCandidate parsingResult lc rc pc candidate db
      = (Js.Throws Js.TypeError, db))
  /\ (aliasOnly = false ->
      forall dbs,
        databaseNames db = Some dbs -> aliasNames db = None ->
        ruleCandidate parsingResult lc rc pc candidate db
        = (Js.Returns
             (Some (map (item Value) dbs
                    ++ [ {| label := None; kind := Value |} ])), db)).
Proof.
  intros H1 H2 Hs Hc candidate aliasOnly.
  unfold candidate; rewrite ruleCandidate_alias by assumption.
  rewrite Hs, Hc; fold aliasOnly.
  split; [|split].
  - intros -> Ha; unfold bind, prop, member, throw; now rewrite Ha.
  - intros -> Hd; unfold bind, prop, member, throw; now rewrite Hd.
  - intros -> dbs Hd Ha.
    unfold bind, prop, member, ret; cbv beta iota.
    rewrite Hd; cbv beta iota; rewrite Ha; unfold Js.concat.
    now rewrite map_app, map_map.
Qed.

(** On an empty schema every candidate rule contributes nothing. *)
Lemma contribution_empty_schema (parsingResult : ParsingResult)
  (db : DbInfo) (candidate : Z * CandidateRule) :
  databaseNames db = Some [] ->
  aliasNames db = Some [] ->
  contribution parsingResult [] [] [] db candidate = [].
Proof.
  intros Hd Ha; destruct candidate as [ruleNumber candidateRule].
  unfold contribution, ruleCandidate.
  repeat match goal with
         | |- context [if ?b then _ else _] => destruct b
         end;
    unfold bind, prop, member, ret; cbv beta iota;
    rewrite ?Hd, ?Ha; cbv beta iota; rewrite ?Ha; reflexivity.
Qed.

(** X6: On a schema whose label, relationship-type, procedure, database
    and alias catalogs are present and empty (the function catalog present),
    [completionCoreCompletion] offers the keyword items of the candidate
    tokens and nothing else, whatever candidate rules the collector
    reports. *)
Theorem empty_schema_gives_keywords_only (parsingResult : ParsingResult)
  (db : DbInfo) (fs : Js.Map SignatureInformation) :
  labels db = Some [] ->
  relationshipTypes db = Some [] ->
  procedureSignatures db = Some [] ->
  functionSignatures db = Some fs ->
  databaseNames db = Some [] ->
  aliasNames db = Some [] ->
  completionCoreCompletion parsingResult db
  = (Js.Returns
       (tokenCompletions
          (CandidatesCollection.tokens (candidatesAt parsingResult))), db).
Proof.
  intros Hl Hr Hp Hf Hd Ha.
  assert (Hnone : forall rules,
             flat_map (contribution parsingResult [] [] [] db) rules = []).
  { induction rules as [|candidate rules IH]; simpl; [reflexivity|].
    now rewrite contribution_empty_schema, IH. }
  assert (Hall : allPresent db = true)
    by (unfold allPresent; now rewrite Hl, Hr, Hp, Hf, Hd, Ha).
  destruct (completionCoreCompletion_returns parsingResult db Hall)
    as [items Hrun].
  rewrite Hrun; do 2 f_equal.
  assert (Hfst : fst (completionCoreCompletion parsingResult db)
                 = Js.Returns items) by now rewrite Hrun.
  destruct (completionCoreCompletion_items _ _ _ Hfst)
    as (ls & rs & ps & fs' & Hl' & Hr' & Hp' & _ & ->).
  rewrite Hl in Hl'; injection Hl' as <-.
  rewrite Hr in Hr'; injection Hr' as <-.
  rewrite Hp in Hp'; injection Hp' as <-.
  simpl map; now rewrite Hnone.
Qed.

(** X7: Every keyword item comes from a candidate token that has a display
    name and its label starts with that name; a candidate token gives at
    most two labels, so there are at most twice as many keyword items as
    candidate tokens, and none for the tokens without a display name. *)
Theorem keyword_labels_start_with_display_name
  (tokens : list (Z * FollowUpList)) :
  (List.length (tokenCompletions tokens) <= 2 * List.length tokens)%nat
  /\ (forall i,
        In i (tokenCompletions tokens) ->
        kind i = Keyword
        /\ exists tokenNumber followUpList name rest,
             In (tokenNumber, followUpList) tokens
             /\ tokenNames tokenNumber = Some name
             /\ label i = Some (name ++ rest)%string)
  /\ (forall tokenNumber followUpList,
        tokenNames tokenNumber = None ->
        tokenCandidate (tokenNumber, followUpList) = []).
Proof.
  assert (Hlen : forall value, (List.length (tokenCandidate value) <= 2)%nat).
  { intros [tokenNumber followUpList]; unfold tokenCandidate.
    destruct (tokenNames tokenNumber); [|simpl; lia].
    destruct (String.eqb _ _); [simpl; lia|].
    destruct (optional followUpList); simpl; lia. }
  split; [|split].
  - unfold tokenCompletions, tokenCandidates, Js.entries.
    rewrite length_map.
    induction tokens as [|value tokens IH]; simpl; [lia|].
    rewrite length_app; specialize (Hlen value); lia.
  - intros i Hi; unfold tokenCompletions, tokenCandidates, Js.entries in Hi.
    apply in_map_iff in Hi; destruct Hi as (l & <- & Hl).
    split; [reflexivity|].
    apply in_flat_map in Hl.
    destruct Hl as ([tokenNumber followUpList] & Hin & Hl).
    unfold tokenCandidate in Hl.
    destruct (tokenNames tokenNumber) as [name|] eqn:Hname; [|contradiction].
    exists tokenNumber, followUpList, name.
    destruct (String.eqb _ _).
    + destruct Hl as [<-|[]]; exists ""; repeat split; try assumption.
      simpl; f_equal; clear; induction name as [|c name IH]; simpl;
        [reflexivity | now rewrite <- IH].
    + destruct (optional followUpList).
      * destruct Hl as [<-|[<-|[]]].
        -- exists ""; repeat split; try assumption.
           simpl; f_equal; clear; induction name as [|c name IH]; simpl;
             [reflexivity | now rewrite <- IH].
        -- eexists; repeat split; try assumption; reflexivity.
      * destruct Hl as [<-|[]].
        eexists; repeat split; try assumption; reflexivity.
  - intros tokenNumber followUpList H; unfold tokenCandidate; now rewrite H.
Qed.


(** *** The structural resolvers *)

(** X9: [autoCompleteFunctions] keeps the catalog order and content: the
    names offered are those of the catalog that start with the text of the
    expression, each as often and in the order the catalog has it; an empty
    text offers every function; a name equal to the text is offered; a longer
    text offers no name that a shorter text it extends does not offer. *)
Theorem function_completion_by_prefix (expr : ParserRuleContext)
  (db : DbInfo) (fs : Js.Map SignatureInformation) :
  functionSignatures db = Some fs ->
  let offered (e : ParserRuleContext) :=
    filter (fun name => Js.startsWith name (getText e)) (Js.keys fs) in
  autoCompleteFunctions expr db
  = (Js.Returns (map (item Function) (offered expr)), db)
  /\ (forall name,
        In name (offered expr)
        <-> In name (Js.keys fs)
            /\ exists rest, name = (getText expr ++ rest)%string)
  /\ (getText expr = "" -> offered expr = Js.keys fs)
  /\ (In (getText expr) (Js.keys fs) -> In (getText expr) (offered expr))
  /\ (NoDup (Js.keys fs) -> NoDup (offered expr))
  /\ (forall shorter more,
        getText expr = (getText shorter ++ more)%string ->
        incl (offered expr) (offered shorter)).
Proof.
  intros Hfs offered.
  assert (Hin : forall e name,
             In name (offered e)
             <-> In name (Js.keys fs)
                 /\ exists rest, name = (getText e ++ rest)%string)
    by (intros e name; unfold offered;
        rewrite filter_In, startsWith_spec; reflexivity).
  split; [|split; [|split; [|split; [|split]]]].
  - unfold autoCompleteFunctions, bind, prop, member, ret; now rewrite Hfs.
  - apply Hin.
  - intros Htext; unfold offered; rewrite Htext.
    apply forallb_filter_id, forallb_forall.
    intros name _; unfold Js.startsWith; now destruct name.
  - intros H; apply Hin; split; [exact H|].
    exists ""; clear.
    induction (getText expr) as [|c s IH]; simpl;
      [reflexivity | now rewrite <- IH].
  - apply NoDup_filter.
  - intros shorter more Htext name Hname.
    apply Hin in Hname; destruct Hname as (Hkey & rest & ->).
    apply Hin; split; [exact Hkey|].
    exists (more ++ rest)%string; rewrite Htext.
    clear; induction (getText shorter) as [|c s IH]; simpl;
      [reflexivity | now rewrite IH].
Qed.

Lemma bind_ret {A B : Type} (a : A) (k : A -> M B) :
  bind (ret a) k = k a.
Proof. reflexivity. Qed.

(** What the structural resolver comes down to: no opinion, the empty
    list, or one of its three completions. *)
Lemma autoCompleteStructurally_cases (parsingResult : ParsingResult) :
  autoCompleteStructurally parsingResult = ret None
  \/ autoCompleteStructurally parsingResult = ret (Some [])
  \/ autoCompleteStructurally parsingResult
     = bind autocompleteRelTypes (fun items => ret (Some items))
  \/ (exists expr,
        autoCompleteStructurally parsingResult
        = bind (autoCompleteFunctions expr) (fun items => ret (Some items)))
  \/ autoCompleteStructurally parsingResult
     = bind autoCompleteProcNames (fun items => ret (Some items)).
Proof.
  unfold autoCompleteStructurally; cbv zeta.
  destruct (Js.length (tokens parsingResult) - 2 <=? 0) eqn:Hlen;
    [now left|].
  apply Z.leb_gt in Hlen.
  destruct (structural_tokens _ Hlen) as (lastToken & eof & -> & ->).
  unfold member; rewrite bind_ret.
  destruct (negb (text eof =? "<EOF>")%string); [right; now left|].
  rewrite bind_ret.
  destruct (type lastToken =? CypherParser.SPACE); [now left|].
  destruct (inRelationshipType _); [do 2 right; now left|].
  destruct (parentExpression _) as [expr|];
    [do 3 right; left; now exists expr|].
  destruct (inProcedureName _); [do 4 right; reflexivity | now left].
Qed.

Lemma autoCompleteStructurallyAddingChar_cases (textUntilPosition : string) :
  autoCompleteStructurallyAddingChar textUntilPosition = ret None
  \/ autoCompleteStructurallyAddingChar textUntilPosition
     = bind autocompleteRelTypes (fun items => ret (Some items)).
Proof.
  unfold autoCompleteStructurallyAddingChar; cbv zeta.
  set (parsingResult := parserWrapper.parse _).
  destruct (Js.length (tokens parsingResult) - 2 <=? 0) eqn:Hlen;
    [now left|].
  apply Z.leb_gt in Hlen.
  destruct (structural_tokens _ Hlen) as (lastToken & eof & -> & _).
  unfold member; rewrite bind_ret.
  destruct (type lastToken =? CypherParser.SPACE); [now left|].
  destruct (inRelationshipType _); [now right | now left].
Qed.

(** X10: The structural resolvers never read the labels, the database
    names or the alias names: [autoCompleteStructurally] gives the same
    outcome on two snapshots that agree on the relationship types, the
    procedures and the functions, and [autoCompleteStructurallyAddingChar] on
    two that agree on the relationship types. *)
Theorem structural_resolvers_ignore_labels_and_names
  (parsingResult : ParsingResult) (textUntilPosition : string)
  (db db' : DbInfo) :
  relationshipTypes db' = relationshipTypes db ->
  (procedureSignatures db' = procedureSignatures db ->
   functionSignatures db' = functionSignatures db ->
   fst (autoCompleteStructurally parsingResult db')
   = fst (autoCompleteStructurally parsingResult db))
  /\ fst (autoCompleteStructurallyAddingChar textUntilPosition db')
     = fst (autoCompleteStructurallyAddingChar textUntilPosition db).
Proof.
  intros Hr.
  assert (Hrel : fst (bind autocompleteRelTypes
                        (fun items => ret (Some items)) db')
                 = fst (bind autocompleteRelTypes
                          (fun items => ret (Some items)) db)).
  { unfold bind, autocompleteRelTypes, bind, prop, member, ret, throw.
    rewrite Hr; now destruct (relationshipTypes db). }
  split.
  - intros Hp Hf.
    destruct (autoCompleteStructurally_cases parsingResult)
      as [E|[E|[E|[[expr E]|E]]]]; rewrite E; try reflexivity.
    + exact Hrel.
    + unfold bind, autoCompleteFunctions, bind, prop, member, ret, throw.
      rewrite Hf; now destruct (functionSignatures db).
    + unfold bind, autoCompleteProcNames, bind, prop, member, ret, throw.
      rewrite Hp; now destruct (procedureSignatures db).
  - destruct (autoCompleteStructurallyAddingChar_cases textUntilPosition)
      as [E|E]; rewrite E; [reflexivity | exact Hrel].
Qed.

(** X11: The structural resolvers offer no keyword and no value, and no
    mixture: the items [autoCompleteStructurally] returns are all
    [TypeParameter] items or all [Function] items, and
    [autoCompleteStructurallyAddingChar] has just two answers on a snapshot
    with relationship types, no opinion or one [TypeParameter] item per
    relationship type. *)
Theorem structural_resolvers_item_kinds (parsingResult : ParsingResult)
  (textUntilPosition : string) (db : DbInfo) :
  (forall items,
     fst (autoCompleteStructurally parsingResult db)
     = Js.Returns (Some items) ->
     Forall (fun i => kind i = TypeParameter) items
     \/ Forall (fun i => kind i = Function) items)
  /\ (forall rs,
        relationshipTypes db = Some rs ->
        autoCompleteStructurallyAddingChar textUntilPosition db
        = (Js.Returns None, db)
        \/ autoCompleteStructurallyAddingChar textUntilPosition db
           = (Js.Returns (Some (map (item TypeParameter) rs)), db)).
Proof.
  split.
  - intros items.
    destruct (autoCompleteStructurally_cases parsingResult)
      as [E|[E|[E|[[expr E]|E]]]]; rewrite E.
    + discriminate.
    + intros H; injection H as <-; left; constructor.
    + unfold bind, autocompleteRelTypes, bind, prop, member, ret, throw.
      destruct (relationshipTypes db); [|discriminate].
      intros H; injection H as <-; left.
      apply Forall_map, Forall_forall; reflexivity.
    + unfold bind, autoCompleteFunctions, bind, prop, member, ret, throw.
      destruct (functionSignatures db); [|discriminate].
      intros H; injection H as <-; right.
      apply Forall_map, Forall_forall; reflexivity.
    + unfold bind, autoCompleteProcNames, bind, prop, member, ret, throw.
      destruct (procedureSignatures db); [|discriminate].
      intros H; injection H as <-; right.
      apply Forall_map, Forall_forall; reflexivity.
  - intros rs Hrs.
    destruct (autoCompleteStructurallyAddingChar_cases textUntilPosition)
      as [E|E]; rewrite E; [now left|right].
    unfold bind, autocompleteRelTypes, bind, prop, member, ret.
    now rewrite Hrs.
Qed.

(** X12: With a [findParent] that finds nothing from [undefined], a stop
    node in a relationship-type position or in a node-label position is in a
    label, so a stop node outside every label is in neither. *)
Theorem label_positions_are_inside_a_label (stopNode : ParserRuleContext) :
  (forall condition, findParent None condition = None) ->
  (inRelationshipType stopNode = true -> inLabel stopNode = true)
  /\ (inNodeLabel stopNode = true -> inLabel stopNode = true)
  /\ (inLabel stopNode = false ->
      inRelationshipType stopNode = false /\ inNodeLabel stopNode = false).
Proof.
  intros Hnone.
  unfold inRelationshipType, inNodeLabel, inLabel; cbv zeta.
  destruct (findParent (Some stopNode) isLabel) as [labelParent|];
    [repeat split; intros; try reflexivity; discriminate|].
  rewrite !Hnone; repeat split; intros; try reflexivity; discriminate.
Qed.

End CompletionProperties.

(** *** The test helper *)

Lemma CompletionItemKind_eqb_eq (a b : CompletionItemKind) :
  CompletionItemKind_eqb a b = true <-> a = b.
Proof. destruct a, b; simpl; split; intros H; congruence. Qed.

Lemma label_eqb_eq (a b : option string) :
  label_eqb a b = true <-> a = b.
Proof.
  destruct a as [s|], b as [t|]; simpl; split; intros H;
    try congruence.
  - apply String.eqb_eq in H; now subst.
  - injection H as ->; apply String.eqb_refl.
Qed.

(** X13: [testCompletion] passes exactly when every expected item occurs,
    with its kind and label, among the items the completion returned: it
    passes for no expectation at all, and once it passes it still passes when
    the completion returns more items or the same in another order. *)
Theorem test_helper_checks_containment
  (actualCompletionList expected : list CompletionItem) :
  (testCompletion actualCompletionList expected = true
   <-> forall expectedItem,
         In expectedItem expected ->
         exists value,
           In value actualCompletionList
           /\ kind value = kind expectedItem
           /\ label value = label expectedItem)
  /\ testCompletion actualCompletionList [] = true
  /\ (forall larger,
        incl actualCompletionList larger ->
        testCompletion actualCompletionList expected = true ->
        testCompletion larger expected = true).
Proof.
  assert (Hiff : forall actual,
             testCompletion actual expected = true
             <-> forall expectedItem,
                   In expectedItem expected ->
                   exists value,
                     In value actual
                     /\ kind value = kind expectedItem
                     /\ label value = label expectedItem).
  { intros actual; unfold testCompletion; rewrite forallb_forall.
    split; intros H expectedItem Hin; specialize (H expectedItem Hin).
    - cbv zeta in H.
      destruct (find _ actual) as [value|] eqn:E; [|discriminate].
      apply find_some in E; destruct E as [Hv E].
      apply andb_prop in E; destruct E as [Ek El].
      exists value; repeat split;
        [exact Hv | now apply CompletionItemKind_eqb_eq | now apply label_eqb_eq].
    - cbv zeta.
      destruct H as (value & Hv & Hk & Hl).
      destruct (find _ actual) as [found|] eqn:E; [reflexivity|].
      pose proof (find_none _ _ E value Hv) as Hnone; simpl in Hnone.
      rewrite (proj2 (CompletionItemKind_eqb_eq _ _) Hk),
        (proj2 (label_eqb_eq _ _) Hl) in Hnone; discriminate. }
  split; [apply Hiff|split; [reflexivity|]].
  intros larger Hincl Hpass; apply Hiff.
  intros expectedItem Hin.
  destruct (proj1 (Hiff actualCompletionList) Hpass expectedItem Hin)
    as (value & Hv & Hk & Hl).
  exists value; repeat split; auto.
Qed.

(** ** Properties of the highlighting code *)

Module HighlightingProperties.

Import Highlighting.

(** *** Maps *)

Lemma get_set_same {V : Type} (m : Js.Map V) (k : string) (v : V) :
  JsMap.get (JsMap.set m k v) k = Some v.
Proof.
  induction m as [|[k' v'] m IH]; simpl.
  - now rewrite String.eqb_refl.
  - destruct (k' =? k)%string eqn:E; simpl.
    + now rewrite String.eqb_refl.
    + now rewrite E.
Qed.

Lemma get_set_other {V : Type} (m : Js.Map V) (k k' : string) (v : V) :
  k <> k' -> JsMap.get (JsMap.set m k v) k' = JsMap.get m k'.
Proof.
  intros Hne; induction m as [|[k0 v0] m IH]; simpl.
  - apply String.eqb_neq in Hne; now rewrite Hne.
  - destruct (k0 =? k)%string eqn:E; simpl.
    + apply String.eqb_eq in E; subst k0.
      apply String.eqb_neq in Hne; now rewrite Hne.
    + now rewrite IH.
Qed.

Lemma set_get_same {V : Type} (m : Js.Map V) (k : string) (v : V) :
  JsMap.get m k = Some v -> JsMap.set m k v = m.
Proof.
  induction m as [|[k0 v0] m IH]; simpl; [discriminate|].
  destruct (k0 =? k)%string eqn:E.
  - apply String.eqb_eq in E; subst k0; now intros [= ->].
  - intros H; now rewrite IH.
Qed.

Lemma get_in {V : Type} (m : Js.Map V) (k : string) (v : V) :
  JsMap.get m k = Some v -> In (k, v) m.
Proof.
  induction m as [|[k0 v0] m IH]; simpl; [discriminate|].
  destruct (k0 =? k)%string eqn:E.
  - apply String.eqb_eq in E; subst k0; intros [= ->]; now left.
  - intros H; right; now apply IH.
Qed.

Lemma set_values {V : Type} (P : V -> Prop) (m : Js.Map V) (k : string)
  (v : V) :
  P v -> Forall (fun kv => P (snd kv)) m ->
  Forall (fun kv => P (snd kv)) (JsMap.set m k v).
Proof.
  intros Hv; induction 1 as [|[k0 v0] m H0 Hm IH]; simpl.
  - now repeat constructor.
  - destruct (k0 =? k)%string; constructor; auto.
Qed.

(** *** The legend *)

Section LegendLoop.

(** The callback of the two loops of the constructor. *)
Let record (name : string) (index : Z) (s : list string * Js.Map Z)
  : list string * Js.Map Z :=
  let '(this_names, map) := s in
  (this_names ++ [name], JsMap.set map name index).

Lemma forEachFrom_record (names : list string) :
  forall (index : Z) (this_names : list string) (m : Js.Map Z),
    fst (forEachFrom record names index (this_names, m)) = this_names ++ names
    /\ (NoDup names ->
        forall n name,
          nth_error names n = Some name ->
          JsMap.get (snd (forEachFrom record names index (this_names, m))) name
          = Some (index + Z.of_nat n))
    /\ (forall name,
          ~ In name names ->
          JsMap.get (snd (forEachFrom record names index (this_names, m))) name
          = JsMap.get m name).
Proof.
  induction names as [|x names IH]; intros index this_names m; simpl.
  - rewrite app_nil_r; repeat split; auto.
    intros _ [|n] name H; discriminate.
  - destruct (IH (index + 1) (this_names ++ [x]) (JsMap.set m x index))
      as (Hfst & Hin & Hout).
    split; [|split].
    + now rewrite Hfst, <- app_assoc.
    + intros Hnd [|n] name Hn; inversion Hnd as [|? ? Hx Hnames]; subst.
      * simpl in Hn; injection Hn as ->.
        rewrite (Hout name Hx), get_set_same; f_equal; lia.
      * simpl in Hn; rewrite (Hin Hnames n name Hn); f_equal; lia.
    + intros name Hname.
      rewrite Hout by (intros H; apply Hname; now right).
      apply get_set_other; intros ->; apply Hname; now left.
Qed.

Lemma forEachFrom_record_again (names : list string) :
  forall (index : Z) (this_names : list string) (m : Js.Map Z),
    (forall n name,
       nth_error names n = Some name ->
       JsMap.get m name = Some (index + Z.of_nat n)) ->
    snd (forEachFrom record names index (this_names, m)) = m.
Proof.
  induction names as [|x names IH]; intros index this_names m H; simpl;
    [reflexivity|].
  rewrite (set_get_same m x index).
  - apply IH; intros n name Hn.
    rewrite (H (S n) name Hn); f_equal; lia.
  - rewrite (H 0%nat x eq_refl); f_equal; lia.
Qed.

Lemma forEachFrom_record_values (lo hi : Z) (names : list string) :
  forall (index : Z) (this_names : list string) (m : Js.Map Z),
    lo <= index -> index + Z.of_nat (List.length names) <= hi ->
    Forall (fun kv => lo <= snd kv < hi) m ->
    Forall (fun kv => lo <= snd kv < hi)
      (snd (forEachFrom record names index (this_names, m))).
Proof.
  induction names as [|x names IH]; intros index this_names m Hlo Hhi Hm;
    simpl; [exact Hm|].
  simpl List.length in Hhi.
  apply IH; [lia | lia |].
  apply (set_values (fun v => lo <= v < hi)); [lia | exact Hm].
Qed.

Lemma tokenTypesLegend_NoDup : NoDup tokenTypesLegend.
Proof.
  assert (nodup string_dec tokenTypesLegend = tokenTypesLegend) as <-
    by (vm_compute; reflexivity).
  apply NoDup_nodup.
Qed.

Lemma tokenModifiersLegend_NoDup : NoDup tokenModifiersLegend.
Proof.
  assert (nodup string_dec tokenModifiersLegend = tokenModifiersLegend) as <-
    by (vm_compute; reflexivity).
  apply NoDup_nodup.
Qed.

Lemma Legend_new_types (g : Globals) :
  tokenTypes (fst (Legend_new g)) = tokenTypesLegend
  /\ tokenModifiers (fst (Legend_new g)) = tokenModifiersLegend
  /\ tokenTypesMap (snd (Legend_new g))
     = snd (forEachFrom record tokenTypesLegend 0 ([], tokenTypesMap g))
  /\ tokenModifiersMap (snd (Legend_new g))
     = snd (forEachFrom record tokenModifiersLegend 0
              ([], tokenModifiersMap g)).
Proof.
  unfold Legend_new, forEach.
  fold record.
  destruct (forEachFrom_record tokenTypesLegend 0 [] (tokenTypesMap g))
    as (Ht & _).
  destruct (forEachFrom_record tokenModifiersLegend 0 [] (tokenModifiersMap g))
    as (Hm & _).
  destruct (forEachFrom record tokenTypesLegend 0 ([], tokenTypesMap g))
    as [types typesMap].
  destruct (forEachFrom record tokenModifiersLegend 0
              ([], tokenModifiersMap g)) as [modifiers modifiersMap].
  simpl in *; subst; repeat split.
Qed.

(** After a legend has been constructed, every name of the legend encodes
    as its position. *)
Lemma encode_legend_name (g : Globals) (n : nat) (name : string) :
  nth_error tokenTypesLegend n = Some name ->
  _encodeTokenType (snd (Legend_new g)) name = Z.of_nat n.
Proof.
  intros Hn; unfold _encodeTokenType, JsMap.has.
  destruct (Legend_new_types g) as (_ & _ & -> & _).
  destruct (forEachFrom_record tokenTypesLegend 0 [] (tokenTypesMap g))
    as (_ & Hin & _).
  now rewrite (Hin tokenTypesLegend_NoDup n name Hn).
Qed.

(** X14: Constructing a legend gives the object the 21 token types and the
    8 modifiers of the two lists, whatever the maps of the module held
    before, and from then on every token type of the legend encodes as its
    position in the legend: decoding what [_encodeTokenType] gives, by
    position in [tokenTypes], gives the token type back. *)
Theorem legend_round_trip (g : Globals) :
  tokenTypes (fst (Legend_new g)) = tokenTypesLegend
  /\ tokenModifiers (fst (Legend_new g)) = tokenModifiersLegend
  /\ (forall n name,
        nth_error (tokenTypes (fst (Legend_new g))) n = Some name ->
        _encodeTokenType (snd (Legend_new g)) name = Z.of_nat n)
  /\ (forall name,
        In name (tokenTypes (fst (Legend_new g))) ->
        nth_error (tokenTypes (fst (Legend_new g)))
          (Z.to_nat (_encodeTokenType (snd (Legend_new g)) name))
        = Some name).
Proof.
  destruct (Legend_new_types g) as (Ht & Hm & _).
  rewrite Ht, Hm; repeat split.
  - intros n name; apply encode_legend_name.
  - intros name Hin.
    apply In_nth_error in Hin; destruct Hin as [n Hn].
    now rewrite (encode_legend_name g n name Hn), Nat2Z.id.
Qed.

(** X15: A token type outside the legend encodes as 0, the code of
    ["comment"], once a legend has been constructed on the empty maps; and
    as long as no legend has been constructed every token type encodes as 0.
    With a legend, every code is a position of the legend. *)
Theorem unknown_token_type_encodes_as_comment (tokenType : string) :
  _encodeTokenType initialGlobals tokenType = 0
  /\ _encodeTokenType (snd (Legend_new initialGlobals)) "comment" = 0
  /\ (~ In tokenType tokenTypesLegend ->
      _encodeTokenType (snd (Legend_new initialGlobals)) tokenType = 0)
  /\ 0 <= _encodeTokenType (snd (Legend_new initialGlobals)) tokenType < 21.
Proof.
  split; [reflexivity|split; [reflexivity|split]].
  - intros Hout; unfold _encodeTokenType, JsMap.has.
    destruct (Legend_new_types initialGlobals) as (_ & _ & -> & _).
    destruct (forEachFrom_record tokenTypesLegend 0 []
                (tokenTypesMap initialGlobals)) as (_ & _ & Hother).
    now rewrite (Hother tokenType Hout).
  - unfold _encodeTokenType, JsMap.has.
    destruct (Legend_new_types initialGlobals) as (_ & _ & -> & _).
    pose proof (forEachFrom_record_values 0 21 tokenTypesLegend 0 []
                  (tokenTypesMap initialGlobals)) as Hvalues.
    destruct (JsMap.get _ tokenType) as [index|] eqn:E; simpl; [|lia].
    apply get_in in E.
    assert (Hall : Forall (fun kv : string * Z => 0 <= snd kv < 21)
                     (snd (forEachFrom record tokenTypesLegend 0
                             ([], tokenTypesMap initialGlobals))))
      by (apply Hvalues; [lia | simpl; lia | constructor]).
    rewrite Forall_forall in Hall; exact (Hall _ E).
Qed.

Lemma Legend_state_eq (a b : Legend * Globals) :
  tokenTypes (fst a) = tokenTypes (fst b) ->
  tokenModifiers (fst a) = tokenModifiers (fst b) ->
  tokenTypesMap (snd a) = tokenTypesMap (snd b) ->
  tokenModifiersMap (snd a) = tokenModifiersMap (snd b) ->
  a = b.
Proof.
  destruct a as [[types modifiers] [tm mm]],
    b as [[types' modifiers'] [tm' mm']]; simpl.
  now intros -> -> -> ->.
Qed.

(** X16: Constructing a legend again changes nothing: the maps of the
    module are after a second construction what they were after the first,
    and the second legend has the same token types and modifiers, not the
    first one's twice. *)
Theorem legend_construction_is_idempotent (g : Globals) :
  Legend_new (snd (Legend_new g)) = Legend_new g.
Proof.
  destruct (Legend_new_types g) as (Ht & Hm & Htm & Hmm).
  destruct (Legend_new_types (snd (Legend_new g)))
    as (Ht' & Hm' & Htm' & Hmm').
  assert (Htypes : tokenTypesMap (snd (Legend_new (snd (Legend_new g))))
                   = tokenTypesMap (snd (Legend_new g))).
  { rewrite Htm'; apply forEachFrom_record_again.
    intros n name Hn; rewrite Htm.
    destruct (forEachFrom_record tokenTypesLegend 0 [] (tokenTypesMap g))
      as (_ & Hin & _).
    apply Hin; [apply tokenTypesLegend_NoDup | exact Hn]. }
  assert (Hmodifiers :
            tokenModifiersMap (snd (Legend_new (snd (Legend_new g))))
            = tokenModifiersMap (snd (Legend_new g))).
  { rewrite Hmm'; apply forEachFrom_record_again.
    intros n name Hn; rewrite Hmm.
    destruct (forEachFrom_record tokenModifiersLegend 0 []
                (tokenModifiersMap g)) as (_ & Hin & _).
    apply Hin; [apply tokenModifiersLegend_NoDup | exact Hn]. }
  apply Legend_state_eq; congruence.
Qed.

End LegendLoop.

(** *** The listener *)

Lemma SyntaxHighlighter_call_app (allTokens : list IParsedToken)
  (call : ListenerCall) :
  SyntaxHighlighter_call allTokens call
  = allTokens ++ SyntaxHighlighter_call [] call.
Proof.
  destruct call as [t|t|ctx|t|t|t|t]; simpl; try reflexivity.
  destruct (OPTIONAL ctx); simpl; [now rewrite <- app_assoc | reflexivity].
Qed.

Lemma SyntaxHighlighter_allTokens_flat (calls : list ListenerCall) :
  SyntaxHighlighter_allTokens calls
  = flat_map (SyntaxHighlighter_call []) calls.
Proof.
  unfold SyntaxHighlighter_allTokens.
  assert (H : forall allTokens,
             fold_left SyntaxHighlighter_call calls allTokens
             = allTokens ++ flat_map (SyntaxHighlighter_call []) calls).
  { induction calls as [|call calls IH]; intros allTokens; simpl.
    - now rewrite app_nil_r.
    - now rewrite IH, SyntaxHighlighter_call_app, <- app_assoc. }
  apply (H []).
Qed.

(** The tokens collected are the tokens the calls read, one for one. *)
Lemma SyntaxHighlighter_allTokens_geometry (calls : list ListenerCall) :
  map (fun t => (line t, startCharacter t, length t))
    (SyntaxHighlighter_allTokens calls)
  = map (fun token =>
           (antlr4ts.line token - 1, antlr4ts.startIndex token,
            antlr4ts.stopIndex token - antlr4ts.startIndex token + 1))
      (flat_map tokensOfCall calls).
Proof.
  rewrite SyntaxHighlighter_allTokens_flat.
  induction calls as [|call calls IH]; simpl; [reflexivity|].
  rewrite !map_app, IH; f_equal.
  destruct call as [t|t|ctx|t|t|t|t]; simpl; try reflexivity.
  now destruct (OPTIONAL ctx).
Qed.

(** The token types the listener uses. *)
Lemma SyntaxHighlighter_allTokens_types (calls : list ListenerCall) :
  Forall
    (fun t =>
       In (tokenType t)
         [ "typeParameter"; "keyword"; "decorator"; "method"; "variable";
           "property"; "string" ])
    (SyntaxHighlighter_allTokens calls).
Proof.
  rewrite SyntaxHighlighter_allTokens_flat.
  apply Forall_forall; intros t Ht.
  apply in_flat_map in Ht; destruct Ht as (call & _ & Ht).
  destruct call as [tok|tok|ctx|tok|tok|tok|tok]; simpl in Ht;
    try (destruct Ht as [<-|[]]; simpl; tauto).
  destruct (OPTIONAL ctx); simpl in Ht;
    repeat (destruct Ht as [<-|Ht]; [simpl; tauto|]); contradiction.
Qed.

(** *** Sorting by a number *)

Section SortByKey.

Context {A : Type} (key : A -> Z).

Let compare (a b : A) : Z := key a - key b.

Lemma insertBy_permutation (x : A) (a : list A) :
  Permutation (insertBy compare x a) (x :: a).
Proof.
  induction a as [|y a IH]; simpl; [reflexivity|].
  destruct (compare x y <=? 0); [reflexivity|].
  rewrite IH; apply perm_swap.
Qed.

Lemma sort_permutation (a : list A) : Permutation (sort compare a) a.
Proof.
  induction a as [|x a IH]; simpl; [reflexivity|].
  now rewrite insertBy_permutation, IH.
Qed.

Lemma insertBy_sorted (x : A) (a : list A) :
  Sorted (fun u v => key u <= key v) a ->
  Sorted (fun u v => key u <= key v) (insertBy compare x a).
Proof.
  induction 1 as [|y a Ha IH Hy]; simpl; [repeat constructor|].
  destruct (compare x y <=? 0) eqn:E; unfold compare in E.
  - apply Z.leb_le in E.
    constructor; [now constructor|constructor; lia].
  - apply Z.leb_gt in E.
    constructor; [exact IH|].
    destruct a as [|z a]; simpl.
    + constructor; lia.
    + destruct (compare x z <=? 0); constructor; [lia|].
      now inversion Hy.
Qed.

Lemma sort_sorted (a : list A) :
  Sorted (fun u v => key u <= key v) (sort compare a).
Proof.
  induction a as [|x a IH]; simpl; [constructor|].
  now apply insertBy_sorted.
Qed.

Lemma insertBy_filter (k : Z) (x : A) (a : list A) :
  filter (fun u => key u =? k) (insertBy compare x a)
  = filter (fun u => key u =? k) (x :: a).
Proof.
  induction a as [|y a IH]; simpl; [reflexivity|].
  destruct (compare x y <=? 0) eqn:E; unfold compare in E;
    [reflexivity|].
  apply Z.leb_gt in E; simpl; rewrite IH; simpl.
  destruct (key x =? k) eqn:Ex, (key y =? k) eqn:Ey; try reflexivity.
  apply Z.eqb_eq in Ex, Ey; lia.
Qed.

Lemma sort_filter (k : Z) (a : list A) :
  filter (fun u => key u =? k) (sort compare a)
  = filter (fun u => key u =? k) a.
Proof.
  induction a as [|x a IH]; simpl; [reflexivity|].
  rewrite insertBy_filter; simpl; now rewrite IH.
Qed.

End SortByKey.

Lemma Sorted_map {A B : Type} (R : A -> A -> Prop) (R' : B -> B -> Prop)
  (f : A -> B) (a : list A) :
  (forall u v, In u a -> In v a -> R u v -> R' (f u) (f v)) ->
  Sorted R a -> Sorted R' (map f a).
Proof.
  intros H; induction 1 as [|x a Ha IH Hx]; simpl; [constructor|].
  constructor.
  - apply IH; intros u v Hu Hv; apply H; now right.
  - destruct Hx as [|y a Hxy]; simpl; constructor.
    apply H; simpl; auto.
Qed.

(** *** The semantic tokens *)

Section Provider.

Variable oC_Cypher : string -> list ListenerCall * list SyntaxErrorCall.

(** The pushes are the collected tokens, rearranged. *)
Lemma pushes_are_the_collected_tokens (g : Globals) (lineText : string) :
  Permutation
    (map (fun p => (pushLine p, pushChar p, pushLength p))
       (provideDocumentSemanticTokens oC_Cypher g lineText))
    (map (fun t => (line t, startCharacter t, length t))
       (SyntaxHighlighter_allTokens (fst (oC_Cypher lineText))))
  /\ List.length (provideDocumentSemanticTokens oC_Cypher g lineText)
     = List.length (SyntaxHighlighter_allTokens (fst (oC_Cypher lineText))).
Proof.
  unfold provideDocumentSemanticTokens, sortedTokens; cbv zeta.
  pose proof (sort_permutation startCharacter
                (SyntaxHighlighter_allTokens (fst (oC_Cypher lineText))))
    as Hperm.
  cbv zeta in Hperm; split.
  - rewrite map_map; simpl.
    now apply Permutation_map.
  - rewrite length_map; now apply Permutation_length.
Qed.

(** X17: The tokens are pushed on the builder in ascending order of their
    start offset, as the builder needs them; the pushes are the tokens the
    listener collected, each once, with their line, start and length, and
    with modifier 0; and when the lines of the collected tokens grow with
    their start offsets, the pushes are in ascending order of line too. *)
Theorem semantic_tokens_are_pushed_in_order (g : Globals)
  (lineText : string) :
  let collected := SyntaxHighlighter_allTokens (fst (oC_Cypher lineText)) in
  let pushes := provideDocumentSemanticTokens oC_Cypher g lineText in
  Sorted (fun p q => pushChar p <= pushChar q) pushes
  /\ Permutation
       (map (fun p => (pushLine p, pushChar p, pushLength p)) pushes)
       (map (fun t => (line t, startCharacter t, length t)) collected)
  /\ List.length pushes = List.length collected
  /\ Forall (fun p => pushTokenModifiers p = 0) pushes
  /\ ((forall t u,
         In t collected -> In u collected ->
         startCharacter t <= startCharacter u -> line t <= line u) ->
      Sorted (fun p q => pushLine p <= pushLine q) pushes).
Proof.
  intros collected pushes.
  unfold pushes, provideDocumentSemanticTokens, sortedTokens; cbv zeta.
  fold collected.
  pose proof (sort_sorted startCharacter collected) as Hsorted.
  pose proof (sort_permutation startCharacter collected) as Hperm.
  cbv zeta in Hsorted, Hperm.
  split; [|split; [|split; [|split]]].
  - eapply Sorted_map; [|exact Hsorted]; simpl; auto.
  - rewrite map_map; simpl.
    now apply Permutation_map.
  - rewrite length_map; now apply Permutation_length.
  - apply Forall_map, Forall_forall; reflexivity.
  - intros Hlines.
    eapply Sorted_map; [|exact Hsorted]; simpl.
    intros t u Ht Hu; apply Hlines.
    + eapply Permutation_in; [exact Hperm | exact Ht].
    + eapply Permutation_in; [exact Hperm | exact Hu].
Qed.

(** X18: Tokens that start at the same offset are pushed in the order the
    listener collected them: sorting moves no token past another of the same
    start. *)
Theorem equal_starts_keep_their_order (lineText : string) (offset : Z) :
  filter (fun t => startCharacter t =? offset)
    (sortedTokens (fst (oC_Cypher lineText)))
  = filter (fun t => startCharacter t =? offset)
      (SyntaxHighlighter_allTokens (fst (oC_Cypher lineText))).
Proof.
  unfold sortedTokens.
  apply (sort_filter startCharacter).
Qed.

(** X19: Once a legend has been constructed, the type pushed for a token
    decodes, by position in the legend, to the token type the listener gave
    it: every type the listener uses is in the legend, so no token is pushed
    with the fallback code 0.  Before any legend is constructed, every token
    is pushed with type 0. *)
Theorem pushed_types_decode_to_token_types (g : Globals)
  (lineText : string) :
  let pushes :=
    provideDocumentSemanticTokens oC_Cypher (snd (Legend_new g)) lineText in
  map (fun p => nth_error tokenTypesLegend (Z.to_nat (pushTokenType p)))
    pushes
  = map (fun t => Some (tokenType t))
      (sortedTokens (fst (oC_Cypher lineText)))
  /\ Forall (fun p => 0 < pushTokenType p < 21) pushes
  /\ Forall (fun p => pushTokenType p = 0)
       (provideDocumentSemanticTokens oC_Cypher initialGlobals lineText).
Proof.
  intros pushes.
  assert (Htypes : Forall
                     (fun t =>
                        In (tokenType t)
                          [ "typeParameter"; "keyword"; "decorator";
                            "method"; "variable"; "property"; "string" ])
                     (sortedTokens (fst (oC_Cypher lineText)))).
  { pose proof (SyntaxHighlighter_allTokens_types (fst (oC_Cypher lineText)))
      as H.
    rewrite Forall_forall in *; intros t Ht; apply H.
    eapply Permutation_in; [|exact Ht].
    apply (sort_permutation startCharacter). }
  assert (Hcode : forall t,
             In (tokenType t)
               [ "typeParameter"; "keyword"; "decorator"; "method";
                 "variable"; "property"; "string" ] ->
             nth_error tokenTypesLegend
               (Z.to_nat (_encodeTokenType (snd (Legend_new g)) (tokenType t)))
             = Some (tokenType t)
             /\ 0 < _encodeTokenType (snd (Legend_new g)) (tokenType t) < 21).
  { intros t Ht; simpl in Ht.
    destruct Ht as [<-|[<-|[<-|[<-|[<-|[<-|[<-|[]]]]]]]].
    - rewrite (encode_legend_name g 12 "typeParameter" eq_refl).
      split; [reflexivity | lia].
    - rewrite (encode_legend_name g 2 "keyword" eq_refl).
      split; [reflexivity | lia].
    - rewrite (encode_legend_name g 15 "decorator" eq_refl).
      split; [reflexivity | lia].
    - rewrite (encode_legend_name g 14 "method" eq_refl).
      split; [reflexivity | lia].
    - rewrite (encode_legend_name g 17 "variable" eq_refl).
      split; [reflexivity | lia].
    - rewrite (encode_legend_name g 19 "property" eq_refl).
      split; [reflexivity | lia].
    - rewrite (encode_legend_name g 1 "string" eq_refl).
      split; [reflexivity | lia]. }
  unfold pushes, provideDocumentSemanticTokens; cbv zeta.
  split; [|split].
  - rewrite map_map; simpl.
    apply map_ext_in; intros t Ht.
    rewrite Forall_forall in Htypes.
    apply (Hcode t (Htypes t Ht)).
  - apply Forall_map, Forall_forall; intros t Ht; simpl.
    rewrite Forall_forall in Htypes.
    apply (Hcode t (Htypes t Ht)).
  - apply Forall_map, Forall_forall; reflexivity.
Qed.

(** X20: When the parser's tokens have a line of 1 or more and a stop
    offset not before their start offset, which is not negative, every push
    has a line and a start that are not negative and a length of 1 or more;
    and there is one push for every token the listener calls read, two for a
    match with [OPTIONAL]. *)
Theorem pushes_are_well_formed (g : Globals) (lineText : string) :
  Forall
    (fun token =>
       1 <= antlr4ts.line token
       /\ 0 <= antlr4ts.startIndex token <= antlr4ts.stopIndex token)
    (flat_map tokensOfCall (fst (oC_Cypher lineText))) ->
  let pushes := provideDocumentSemanticTokens oC_Cypher g lineText in
  Forall (fun p => 0 <= pushLine p /\ 0 <= pushChar p /\ 1 <= pushLength p)
    pushes
  /\ List.length pushes
     = List.length (flat_map tokensOfCall (fst (oC_Cypher lineText))).
Proof.
  intros Htokens pushes.
  destruct (pushes_are_the_collected_tokens g lineText) as (Hperm & Hlen).
  fold pushes in Hperm, Hlen.
  rewrite SyntaxHighlighter_allTokens_geometry in Hperm.
  split.
  - apply Forall_forall; intros p Hp.
    assert (In (pushLine p, pushChar p, pushLength p)
              (map (fun q => (pushLine q, pushChar q, pushLength q)) pushes))
      as Hin by (apply in_map_iff; now exists p).
    eapply Permutation_in in Hin; [|exact Hperm].
    apply in_map_iff in Hin; destruct Hin as (token & E & Hin).
    rewrite Forall_forall in Htokens; specialize (Htokens token Hin).
    injection E as <- <- <-; lia.
  - rewrite Hlen.
    rewrite <- (length_map (fun t => (line t, startCharacter t, length t))),
      SyntaxHighlighter_allTokens_geometry.
    apply length_map.
Qed.

(** *** Diagnostics *)

Lemma fold_syntaxError (errors : list SyntaxErrorCall)
  (diagnostics : list Diagnostic) :
  fold_left syntaxError errors diagnostics
  = diagnostics ++ flat_map (syntaxError []) errors.
Proof.
  revert diagnostics; induction errors as [|e errors IH];
    intros diagnostics; simpl.
  - now rewrite app_nil_r.
  - rewrite IH.
    assert (syntaxError diagnostics e = diagnostics ++ syntaxError [] e)
      as -> by reflexivity.
    now rewrite <- app_assoc.
Qed.

(** X21: [validateTextDocument] gives one diagnostic per syntax error, in
    the order of the errors and with their messages, each a warning on a
    single line.  The range comes from the offending symbol alone, not from
    the line and column the parser reports: the symbol's line less one, from
    its start offset to one past its stop offset, so not empty when the stop
    is not before the start; an error without an offending symbol is put on
    the first character of the document. *)
Theorem diagnostics_follow_the_errors (lineText : string) :
  let errors := snd (oC_Cypher lineText) in
  let diagnostics := validateTextDocument oC_Cypher lineText in
  map message diagnostics = map msg errors
  /\ Forall (fun d => severity d = DiagnosticSeverity.Warning) diagnostics
  /\ Forall
       (fun d =>
          Position.line (start (range d)) = Position.line (end_ (range d)))
       diagnostics
  /\ Forall2
       (fun e d =>
          match offendingSymbol e with
          | Some symbol =>
              range d
              = {| start :=
                     Position.create (antlr4ts.line symbol - 1)
                       (antlr4ts.startIndex symbol);
                   end_ :=
                     Position.create (antlr4ts.line symbol - 1)
                       (antlr4ts.stopIndex symbol + 1) |}
              /\ (antlr4ts.startIndex symbol <= antlr4ts.stopIndex symbol ->
                  Position.character (start (range d))
                  < Position.character (end_ (range d)))
          | None =>
              range d
              = {| start := Position.create 0 0;
                   end_ := Position.create 0 1 |}
          end)
       errors diagnostics.
Proof.
  intros errors diagnostics.
  unfold diagnostics, validateTextDocument; fold errors.
  rewrite fold_syntaxError; simpl.
  induction errors as [|e errors IH]; simpl.
  - repeat split; constructor.
  - destruct IH as (Hm & Hs & Hl & Hr).
    split; [now rewrite Hm|].
    split; [now constructor|].
    split; [now constructor|].
    constructor; [|exact Hr].
    destruct (offendingSymbol e) as [symbol|]; simpl; [|reflexivity].
    split; [reflexivity | lia].
Qed.

End Provider.

End HighlightingProperties.

(** ** The properties at concrete inputs *)

#[local] Existing Instance Demo.lexer.
#[local] Existing Instance Demo.grammar.
#[local] Existing Instance Demo.symbols.
#[local] Existing Instance Demo.tree.
#[local] Existing Instance Demo.collector.
#[local] Existing Instance Demo.wrapper.

(** C1 at [ALTER ALIAS a ] (a blank follows the name: nothing), at
    [DROP ALIAS a] (the alias names) and at [USE n] (the database names,
    then the alias names). *)
Lemma alias_name_candidate_dispatch_witness :
  contribution Demo.alterAliasBlank [] [] [] Demo.fullSchema
    (14, {| startTokenIndex := 4; ruleList := [24] |}) = []
  /\ contribution Demo.dropAlias [] [] [] Demo.fullSchema
       (14, {| startTokenIndex := 4; ruleList := [23] |})
     = [item Value "a1"; item Value "a2"]
  /\ contribution Demo.useDatabase [] [] [] Demo.fullSchema
       (14, {| startTokenIndex := 2; ruleList := [30] |})
     = [ item Value "neo4j"; item Value "system"; item Value "a1";
         item Value "a2" ].
Proof.
  assert (H1 : @CypherParser.RULE_symbolicAliasName Demo.grammar
               <> @CypherParser.RULE_unescapedSymbolicNameString Demo.grammar)
    by (vm_compute; discriminate).
  assert (H2 : @CypherParser.RULE_symbolicAliasName Demo.grammar
               <> @CypherParser.RULE_symbolicLabelNameString Demo.grammar)
    by (vm_compute; discriminate).
  split; [|split].
  - pose proof (alias_name_candidate_dispatch Demo.alterAliasBlank
                  {| startTokenIndex := 4; ruleList := [24] |}
                  H1 H2) as W.
    cbv zeta in W; destruct W as (W & _).
    apply (W eq_refl [] [] [] Demo.fullSchema).
  - pose proof (alias_name_candidate_dispatch Demo.dropAlias
                  {| startTokenIndex := 4; ruleList := [23] |}
                  H1 H2) as W.
    cbv zeta in W; destruct W as (_ & _ & W & _).
    apply (W eq_refl eq_refl eq_refl [] [] [] Demo.fullSchema ["a1"; "a2"]
             eq_refl).
  - pose proof (alias_name_candidate_dispatch Demo.useDatabase
                  {| startTokenIndex := 2; ruleList := [30] |}
                  H1 H2) as W.
    cbv zeta in W; destruct W as (_ & _ & _ & W & _).
    apply (W eq_refl eq_refl eq_refl [] [] [] Demo.fullSchema
             ["neo4j"; "system"] ["a1"; "a2"] eq_refl eq_refl).
Defined.

(** C2 at [CALL db]: the candidate gives the procedure list it is handed,
    and the whole result is one [Function] item per procedure. *)
Lemma callable_name_candidate_gives_procedures_witness :
  contribution Demo.callProcedure [] []
    [item Function "db.info"; item Function "dbms.info"] Demo.fullSchema
    (10, {| startTokenIndex := 2; ruleList := [31; 15] |})
  = [item Function "db.info"; item Function "dbms.info"].
Proof.
  pose proof (callable_name_candidate_gives_procedures Demo.callProcedure 10
                {| startTokenIndex := 2; ruleList := [31; 15] |}
                (or_introl eq_refl) (or_introl eq_refl)) as W.
  destruct W as (W & _).
  apply (W [] [] [item Function "db.info"; item Function "dbms.info"]
           Demo.fullSchema).
Defined.

(** C3 as stated fails: [OPTIONAL] (token 5) with a mandatory follow-up
    token that has no display name (token 7) gives the bare [OPTIONAL]. *)
Lemma token_candidate_labels_counterexample :
  tokenNames 5 = Some "OPTIONAL"
  /\ tokenNames 7 = None
  /\ tokenCandidate (5, {| indexes := [7]; optional := false |})
     = ["OPTIONAL"].
Proof. repeat split. Qed.

(** C3 (amended) at [OPTIONAL] followed by a mandatory [MATCH]. *)
Lemma token_candidate_labels_witness :
  tokenCandidate (5, {| indexes := [4]; optional := false |})
  = ["OPTIONAL MATCH"]
  /\ tokenCandidate (5, {| indexes := [4]; optional := true |})
     = ["OPTIONAL"; "OPTIONAL MATCH"]
  /\ tokenCandidate (4, {| indexes := []; optional := false |}) = ["MATCH"]
  /\ tokenCandidate (7, {| indexes := [4]; optional := false |}) = [].
Proof.
  split; [|split; [|split]].
  - pose proof (token_candidate_labels 5
                  {| indexes := [4]; optional := false |}) as W.
    cbv zeta in W; destruct W as (_ & W & _).
    destruct (W "OPTIONAL" eq_refl) as (_ & W' & _).
    apply W'; [discriminate | reflexivity].
  - pose proof (token_candidate_labels 5
                  {| indexes := [4]; optional := true |}) as W.
    cbv zeta in W; destruct W as (_ & W & _).
    destruct (W "OPTIONAL" eq_refl) as (_ & _ & W').
    apply W'; [discriminate | reflexivity].
  - pose proof (token_candidate_labels 4
                  {| indexes := []; optional := false |}) as W.
    cbv zeta in W; destruct W as (_ & W & _).
    destruct (W "MATCH" eq_refl) as (W' & _).
    apply W'; reflexivity.
  - pose proof (token_candidate_labels 7
                  {| indexes := [4]; optional := false |}) as W.
    cbv zeta in W; destruct W as (W & _).
    apply W; reflexivity.
Defined.

(** C4 as stated fails: with one token before an end marker whose text is
    not ["<EOF>"], the resolver returns the no-opinion sentinel, not an empty
    list. *)
Lemma structural_degradation_counterexample :
  tokens Demo.brokenAfterOneToken
  = [ {| type := 2; text := "RETURN" |}; {| type := -1; text := "'abc" |} ]
  /\ ("'abc" =? "<EOF>")%string = false
  /\ autoCompleteStructurally Demo.brokenAfterOneToken Demo.fullSchema
     = (Js.Returns None, Demo.fullSchema)
  /\ autoCompleteStructurally Demo.brokenAfterOneToken Demo.fullSchema
     <> (Js.Returns (Some []), Demo.fullSchema).
Proof. repeat split; discriminate. Qed.

(** C4 (amended) at an empty statement, at a broken statement of three
    tokens and at a statement that ends with a blank. *)
Lemma structural_degradation_witness :
  autoCompleteStructurally (Demo.parse "") Demo.fullSchema
  = (Js.Returns None, Demo.fullSchema)
  /\ autoCompleteStructurally Demo.brokenAfterThreeTokens Demo.fullSchema
     = (Js.Returns (Some []), Demo.fullSchema)
  /\ autoCompleteStructurally Demo.endsWithBlank Demo.fullSchema
     = (Js.Returns None, Demo.fullSchema).
Proof.
  split; [|split].
  - pose proof (structural_degradation (Demo.parse "") Demo.fullSchema) as W.
    cbv zeta in W; destruct W as (_ & W & _).
    apply (W Demo.eofToken eq_refl).
  - pose proof (structural_degradation Demo.brokenAfterThreeTokens
                  Demo.fullSchema) as W.
    cbv zeta in W; destruct W as (_ & _ & W & _).
    apply (W {| type := -1; text := "'abc" |});
      [reflexivity | reflexivity | discriminate].
  - pose proof (structural_degradation Demo.endsWithBlank Demo.fullSchema)
      as W.
    cbv zeta in W; destruct W as (_ & _ & _ & W).
    apply (W Demo.eofToken {| type := 1; text := " " |});
      reflexivity.
Defined.

(** C5 at [MATCH ()-[:KN] (relationship types), at [RETURN ab] (the
    functions that start with [ab], not [Abs]) and at [CALL db] (every
    procedure). *)
Lemma structural_classification_witness :
  autoCompleteStructurally Demo.relationshipType Demo.fullSchema
  = (Js.Returns
       (Some [item TypeParameter "KNOWS"; item TypeParameter "LIKES"]),
     Demo.fullSchema)
  /\ autoCompleteStructurally Demo.returnExpression Demo.fullSchema
     = (Js.Returns (Some [item Function "abs"; item Function "abc"]),
        Demo.fullSchema)
  /\ autoCompleteStructurally Demo.callProcedure Demo.fullSchema
     = (Js.Returns (Some [item Function "db.info"; item Function "dbms.info"]),
        Demo.fullSchema).
Proof.
  assert (Hword : 2 <> @CypherParser.SPACE Demo.grammar)
    by (vm_compute; discriminate).
  split; [|split].
  - pose proof (structural_classification Demo.relationshipType
                  Demo.fullSchema {| type := 2; text := "KN" |} Demo.eofToken
                  eq_refl eq_refl eq_refl eq_refl Hword) as W.
    cbv zeta in W; destruct W as (W & _).
    apply (W eq_refl ["KNOWS"; "LIKES"] eq_refl).
  - pose proof (structural_classification Demo.returnExpression
                  Demo.fullSchema {| type := 2; text := "ab" |} Demo.eofToken
                  eq_refl eq_refl eq_refl eq_refl Hword) as W.
    cbv zeta in W; destruct W as (_ & W & _).
    destruct (W eq_refl
                [ {| Demo.class := Some Expression2Context;
                     Demo.nodeText := "ab" |};
                  Demo.root "RETURN ab" ]
                (map (fun n => (n, {| signatureLabel := "" |}))
                   ["abs"; "acos"; "abc"; "Abs"])
                eq_refl eq_refl) as (W' & _).
    exact W'.
  - pose proof (structural_classification Demo.callProcedure
                  Demo.fullSchema {| type := 2; text := "db" |} Demo.eofToken
                  eq_refl eq_refl eq_refl eq_refl Hword) as W.
    cbv zeta in W; destruct W as (_ & _ & W & _).
    apply (W eq_refl eq_refl eq_refl
             (map (fun n => (n, {| signatureLabel := "" |}))
                ["db.info"; "dbms.info"])
             eq_refl).
Defined.

(** C6 at a statement for which the collector reports a string literal, a
    label name inside a node pattern and the keyword [MATCH]: the three
    label items stand before the keyword item. *)
Lemma rule_items_before_keyword_items_witness :
  completionCoreCompletion Samples.stringLiteral Demo.petSchema
  = (Js.Returns
       [ item TypeParameter "Cat"; item TypeParameter "Person";
         item TypeParameter "Dog"; item Keyword "MATCH" ], Demo.petSchema)
  /\ exists ruleItems tokenItems,
       [ item TypeParameter "Cat"; item TypeParameter "Person";
         item TypeParameter "Dog"; item Keyword "MATCH" ]
       = ruleItems ++ tokenItems
       /\ ruleItems
          = [ item TypeParameter "Cat"; item TypeParameter "Person";
              item TypeParameter "Dog" ]
       /\ tokenItems = [item Keyword "MATCH"]
       /\ Forall
            (fun i => kind i = Function \/ kind i = TypeParameter
                      \/ kind i = Value) ruleItems
       /\ Forall (fun i => kind i = Keyword) tokenItems.
Proof.
  split; [reflexivity|].
  pose proof (rule_items_before_keyword_items Samples.stringLiteral
                Demo.petSchema) as W.
  destruct W as (_ & W & _).
  destruct (W [ item TypeParameter "Cat"; item TypeParameter "Person";
                item TypeParameter "Dog"; item Keyword "MATCH" ] eq_refl)
    as (ls & rs & ps & ruleItems & tokenItems
        & Hl & Hr & Hp & Happ & Hrule & Htok & Hrules & Htokens).
  injection Hl as <-; injection Hr as <-; injection Hp as <-.
  exists ruleItems, tokenItems.
  split; [exact Happ|].
  split; [rewrite Hrule; reflexivity|].
  split; [rewrite Htok; reflexivity|].
  split; [exact Hrules | exact Htokens].
Defined.

(** C7 as stated fails: for ["MATCH (n:P"] with the labels Cat, Person and
    Dog the result holds three [TypeParameter] items, not Person alone. *)
Lemma labels_are_not_prefix_filtered_counterexample :
  labels Demo.petSchema = Some ["Cat"; "Person"; "Dog"]
  /\ completionCoreCompletion (Demo.parse "MATCH (n:P") Demo.petSchema
     = (Js.Returns
          [ item TypeParameter "Cat"; item TypeParameter "Person";
            item TypeParameter "Dog" ], Demo.petSchema)
  /\ completionCoreCompletion (Demo.parse "MATCH (n:P") Demo.petSchema
     <> (Js.Returns [item TypeParameter "Person"], Demo.petSchema).
Proof. repeat split; discriminate. Qed.

(** C7 (amended) at ["MATCH (n:P"]. *)
Lemma labels_are_not_prefix_filtered_witness :
  exists items,
    completionCoreCompletion (Demo.parse "MATCH (n:P") Demo.petSchema
    = (Js.Returns items, Demo.petSchema)
    /\ filter isTypeParameterItem items <> [item TypeParameter "Person"]
    /\ filter isKeywordItem items = [].
Proof.
  destruct (labels_are_not_prefix_filtered (Demo.parse "MATCH (n:P")
              Demo.petSchema eq_refl eq_refl)
    as (items & Hrun & _ & _ & Hnot & Hkeywords).
  exists items; split; [exact Hrun|split].
  - apply (Hnot [] eq_refl); simpl; tauto.
  - exact Hkeywords.
Defined.

(** C8 as stated fails: on a schema object without [labels],
    [completionCoreCompletion] throws a [TypeError]. *)
Lemma present_catalogs_are_read_safely_counterexample :
  labels Demo.noLabels = None
  /\ completionCoreCompletion (Demo.parse "MATCH (n:P") Demo.noLabels
     = (Js.Throws Js.TypeError, Demo.noLabels).
Proof. repeat split. Qed.

(** C8 (amended) at a schema whose catalogs are all present and empty. *)
Lemma present_catalogs_are_read_safely_witness :
  (exists items,
     completionCoreCompletion (Demo.parse "MATCH (n:P")
       (Demo.schema [] [] [] [] [] [])
     = (Js.Returns items, Demo.schema [] [] [] [] [] []))
  /\ (exists r,
        autoCompleteStructurally Demo.returnExpression
          (Demo.schema [] [] [] [] [] [])
        = (Js.Returns r, Demo.schema [] [] [] [] [] [])).
Proof.
  destruct (present_catalogs_are_read_safely (Demo.parse "MATCH (n:P") "M"
              [Demo.root "M"] (Demo.schema [] [] [] [] [] []))
    as (W & _).
  destruct (W eq_refl) as (Hcore & _).
  split; [exact Hcore|].
  destruct (present_catalogs_are_read_safely Demo.returnExpression "M"
              [Demo.root "M"] (Demo.schema [] [] [] [] [] []))
    as (W' & _).
  destruct (W' eq_refl) as (_ & Hstructural & _).
  exact Hstructural.
Defined.

(** C10 at the single token [M]. *)
Lemma short_stream_no_opinion_witness :
  autoCompleteStructurally (Demo.parse "M") Demo.fullSchema
  = (Js.Returns None, Demo.fullSchema)
  /\ autoCompleteStructurallyAddingChar "M" Demo.fullSchema
     = (Js.Returns None, Demo.fullSchema).
Proof.
  destruct (short_stream_no_opinion (Demo.parse "M") "M" Demo.fullSchema)
    as (W1 & W2).
  split; [apply W1 | apply W2]; vm_compute; discriminate.
Defined.

(** ** The further properties at concrete inputs *)

(** X1 at a label name that the collector reports inside a relationship
    pattern, a node pattern and a label expression at once: the relationship
    types. *)
Lemma name_candidate_pattern_dispatch_witness :
  contribution Samples.relationshipLabel
    (map (item TypeParameter) ["Person"]) (map (item TypeParameter) ["KNOWS"])
    [] Demo.fullSchema
    (13, {| startTokenIndex := 7; ruleList := [18; 17; 19] |})
  = [item TypeParameter "KNOWS"].
Proof.
  pose proof (name_candidate_pattern_dispatch Samples.relationshipLabel 13
                {| startTokenIndex := 7; ruleList := [18; 17; 19] |}
                ["Person"] ["KNOWS"] [] Demo.fullSchema
                (or_intror eq_refl) eq_refl eq_refl) as W.
  cbv zeta in W; destruct W as (W & _).
  exact (W eq_refl).
Defined.

(** X2 at a string literal under way. *)
Lemma unknown_rule_contributes_nothing_witness :
  ruleCompletions Samples.stringLiteral [item TypeParameter "Person"] [] []
    [ (12, {| startTokenIndex := 2; ruleList := [40] |});
      (13, {| startTokenIndex := 2; ruleList := [18] |}) ] Demo.fullSchema
  = ruleCompletions Samples.stringLiteral [item TypeParameter "Person"] [] []
      [ (13, {| startTokenIndex := 2; ruleList := [18] |}) ] Demo.fullSchema.
Proof.
  assert (H1 : 12 <> @CypherParser.RULE_unescapedSymbolicNameString
                        Demo.grammar) by (vm_compute; discriminate).
  assert (H2 : 12 <> @CypherParser.RULE_symbolicLabelNameString Demo.grammar)
    by (vm_compute; discriminate).
  assert (H3 : 12 <> @CypherParser.RULE_symbolicAliasName Demo.grammar)
    by (vm_compute; discriminate).
  destruct (unknown_rule_contributes_nothing Samples.stringLiteral 12
              {| startTokenIndex := 2; ruleList := [40] |} H1 H2 H3
              [item TypeParameter "Person"] [] [] Demo.fullSchema)
    as (_ & W).
  exact (W [] [ (13, {| startTokenIndex := 2; ruleList := [18] |}) ]).
Defined.

(** X3 at a schema object without a function catalog. *)
Lemma absent_catalog_throws_witness :
  completionCoreCompletion (Demo.parse "M") Samples.noFunctions
  = (Js.Throws Js.TypeError, Samples.noFunctions).
Proof.
  apply absent_catalog_throws.
  do 3 right; reflexivity.
Defined.

(** X4 at [ALTER ALIAS a ], on a schema object without database and alias
    names. *)
Lemma names_are_read_on_demand_witness :
  exists items,
    completionCoreCompletion Demo.alterAliasBlank Samples.noNames
    = (Js.Returns items, Samples.noNames).
Proof.
  apply names_are_read_on_demand; try reflexivity.
  apply Forall_cons; [right; left; reflexivity | apply Forall_nil].
Defined.

(** X5 at [USE n], on a schema object with database names and without
    alias names. *)
Lemma alias_candidate_on_absent_names_witness :
  ruleCandidate Demo.useDatabase [] [] []
    (14, {| startTokenIndex := 2; ruleList := [30] |}) Samples.noAliasNames
  = (Js.Returns
       (Some [ item Value "neo4j"; item Value "system";
               {| label := None; kind := Value |} ]),
     Samples.noAliasNames).
Proof.
  assert (H1 : @CypherParser.RULE_symbolicAliasName Demo.grammar
               <> @CypherParser.RULE_unescapedSymbolicNameString Demo.grammar)
    by (vm_compute; discriminate).
  assert (H2 : @CypherParser.RULE_symbolicAliasName Demo.grammar
               <> @CypherParser.RULE_symbolicLabelNameString Demo.grammar)
    by (vm_compute; discriminate).
  pose proof (alias_candidate_on_absent_names Demo.useDatabase
                {| startTokenIndex := 2; ruleList := [30] |} [] [] []
                Samples.noAliasNames H1 H2 eq_refl eq_refl) as W.
  cbv zeta in W; destruct W as (_ & _ & W).
  exact (W eq_refl ["neo4j"; "system"] eq_refl eq_refl).
Defined.

(** X6 at the start of a statement, on the empty schema. *)
Lemma empty_schema_gives_keywords_only_witness :
  completionCoreCompletion (Demo.parse "M") (Demo.schema [] [] [] [] [] [])
  = (Js.Returns
       [ item Keyword "MATCH"; item Keyword "OPTIONAL MATCH";
         item Keyword "RETURN" ], Demo.schema [] [] [] [] [] []).
Proof.
  exact (empty_schema_gives_keywords_only (Demo.parse "M")
           (Demo.schema [] [] [] [] [] []) []
           eq_refl eq_refl eq_refl eq_refl eq_refl eq_refl).
Defined.

(** X9 at [RETURN ab] with the functions abs, acos, abc and Abs. *)
Lemma function_completion_by_prefix_witness :
  autoCompleteFunctions
    [ {| Demo.class := Some Expression2Context; Demo.nodeText := "ab" |};
      Demo.root "RETURN ab" ] Demo.fullSchema
  = (Js.Returns [item Function "abs"; item Function "abc"], Demo.fullSchema).
Proof.
  pose proof (function_completion_by_prefix
                [ {| Demo.class := Some Expression2Context;
                     Demo.nodeText := "ab" |};
                  Demo.root "RETURN ab" ]
                Demo.fullSchema
                (map (fun n => (n, {| signatureLabel := "" |}))
                   ["abs"; "acos"; "abc"; "Abs"])
                eq_refl) as W.
  cbv zeta in W; destruct W as (W & _).
  exact W.
Defined.

(** X10 at [MATCH ()-[:KN], on the full schema and on the same without
    labels, database names and alias names. *)
Lemma structural_resolvers_ignore_labels_and_names_witness :
  fst (autoCompleteStructurally Demo.relationshipType Samples.structuralOnly)
  = fst (autoCompleteStructurally Demo.relationshipType Demo.fullSchema)
  /\ fst (autoCompleteStructurallyAddingChar "M" Samples.structuralOnly)
     = fst (autoCompleteStructurallyAddingChar "M" Demo.fullSchema).
Proof.
  destruct (structural_resolvers_ignore_labels_and_names
              Demo.relationshipType "M" Demo.fullSchema
              Samples.structuralOnly eq_refl) as (W1 & W2).
  split; [exact (W1 eq_refl eq_refl) | exact W2].
Defined.

(** X12 at the stop node of [MATCH ()-[:KN]. *)
Lemma label_positions_are_inside_a_label_witness :
  inRelationshipType (result Demo.relationshipType) = true
  /\ inLabel (result Demo.relationshipType) = true.
Proof.
  destruct (label_positions_are_inside_a_label (result Demo.relationshipType)
              (fun condition => eq_refl)) as (W & _).
  split; [reflexivity | exact (W eq_refl)].
Defined.

(** X13 at the label test: Person is expected, Cat, Person and Dog come. *)
Lemma test_helper_checks_containment_witness :
  testCompletion
    [ item TypeParameter "Cat"; item TypeParameter "Person";
      item TypeParameter "Dog" ]
    [item TypeParameter "Person"] = true.
Proof.
  destruct (test_helper_checks_containment [item TypeParameter "Person"]
              [item TypeParameter "Person"]) as (_ & _ & W).
  apply W; [|reflexivity].
  intros i [<-|[]]; simpl; tauto.
Defined.

(** X20 at the listener calls for [OPTIONAL MATCH (n:Person) RETURN n]:
    six pushes for five calls. *)
Lemma pushes_are_well_formed_witness :
  List.length
    (Highlighting.provideDocumentSemanticTokens Samples.parser
       Samples.legendGlobals "OPTIONAL MATCH (n:Person) RETURN n") = 6%nat
  /\ Forall
       (fun p =>
          0 <= Highlighting.pushLine p /\ 0 <= Highlighting.pushChar p
          /\ 1 <= Highlighting.pushLength p)
       (Highlighting.provideDocumentSemanticTokens Samples.parser
          Samples.legendGlobals "OPTIONAL MATCH (n:Person) RETURN n").
Proof.
  destruct (HighlightingProperties.pushes_are_well_formed Samples.parser
              Samples.legendGlobals "OPTIONAL MATCH (n:Person) RETURN n")
    as (W1 & W2).
  - repeat constructor; vm_compute; discriminate.
  - split; [exact W2 | exact W1].
Defined.
